(** * Header-name rewrite for the Chatwoot client: model and properties

    The development embeds these pieces of the repository:

    - the request interceptor installed by [createPatchedAxiosInstance]
      (src/api/integrations/chatbot/chatwoot/libs/chatwoot-client-patch.ts),
    - the global wrapper installed by [patchAxiosGlobally]
      (src/utils/patch-axios.ts),
    - the post-install script that edits the SDK's [request.js] on disk,
    - the other copies of the rewrite kept in the same files: the
      interceptor on the client's own axios instance, the logging version
      of the interceptor, and the older [createPatchedChatwootClient] that
      wraps [axios.request] on every call.

    Header objects are finite maps from header names to JavaScript values;
    in-place mutation of [config.headers] is rendered as a functional update
    of the map carried by the request descriptor. The enumeration order of
    the keys of a header object is not part of the model. Where it matters
    that strict code throws on a header object that refuses a change,
    module [Strict] gives the handler on objects with their property
    attributes. *)

From stdpp Require Import base option gmap strings list fin_maps.
From Stdlib Require Import ZArith.

Open Scope string_scope.

(** ** JavaScript values that may sit in a header slot *)

(** [AxiosHeaderValue] is [string | string[] | number | boolean | null];
    reading a key that is not there gives [undefined]. Numbers are taken as
    integers (no NaN, no fractions). *)
Inductive jsval : Type :=
  | JUndefined
  | JNull
  | JBool (b : bool)
  | JNum (n : Z)
  | JStr (s : string)
  | JArr (xs : list string).

(** ToBoolean: the empty string, 0, [false], [null] and [undefined] are
    falsy, everything else (arrays included) is truthy. *)
Definition truthy (v : jsval) : bool :=
  match v with
  | JUndefined | JNull => false
  | JBool b => b
  | JNum n => negb (Z.eqb n 0)
  | JStr s => negb (String.eqb s EmptyString)
  | JArr _ => true
  end.

(** [a || b] *)
Definition js_or (a b : jsval) : jsval := if truthy a then a else b.

Abbreviation headers_t := (gmap string jsval).

(** [h[k]]: property read, [undefined] for a missing key. *)
Definition js_get (h : headers_t) (k : string) : jsval :=
  default JUndefined (h !! k).

(** ** Request descriptors *)

(** The fields of an axios request config the code can reach: the header
    object (possibly missing) and the fields it never inspects. *)
Record descriptor : Type := mkDescriptor {
  headers : option headers_t;
  url : option string;
  method : option string;
  data : option jsval
}.

Definition with_headers (config : descriptor) (h : headers_t) : descriptor :=
  {| headers := Some h; url := url config;
     method := method config; data := data config |}.

Definition api_access_token : string := "api_access_token".
Definition api_access_token_hyphen : string := "api-access-token".

(** ** Observable effects *)

Inductive level : Type := Verbose | Log | Warn | Error.

(** What a run leaves behind besides its result: lines handed to the logger
    or the console, and writes of the SDK file. *)
Inductive event : Type :=
  | Line (lv : level) (msg : string)
  | WriteFileSync (content : string).

(** Computations that emit events: a writer over [list event]. *)
Definition Traced (A : Type) : Type := A * list event.

#[global] Instance Traced_ret : MRet Traced := fun A a => (a, []).

#[global] Instance Traced_bind : MBind Traced := fun A B k m =>
  let '(a, l1) := m in
  let '(b, l2) := k a in
  (b, (l1 ++ l2)%list).

Definition tell (lv : level) (msg : string) : Traced unit := (tt, [Line lv msg]).

Definition result {A} (m : Traced A) : A := fst m.
Definition trace {A} (m : Traced A) : list event := snd m.

(** ** chatwoot-client-patch.ts *)

Module ChatwootClientPatch.

(** The fulfilled handler handed to [interceptors.request.use] in
    [createPatchedAxiosInstance]. *)
Definition onRequest (config : descriptor) : Traced descriptor :=
  match headers config with
  | Some h =>
      let token := js_or (js_get h api_access_token)
                         (js_get h api_access_token_hyphen) in
      if truthy token then
        let h1 := delete api_access_token h in
        let h2 := <[api_access_token_hyphen := token]> h1 in
        tell Verbose "Patched axios headers: api_access_token → api-access-token" ;;
        mret (with_headers config h2)
      else mret config
  | None => mret config
  end.

(** The descriptor the interceptor hands on: the spec's [normalize]. *)
Definition normalize (config : descriptor) : descriptor :=
  result (onRequest config).

End ChatwootClientPatch.

(** ** patch-axios.ts *)

Module PatchAxios.

(** The function stored in [axios.request] or in
    [Axios.prototype.request]: the library's own, or one of the two
    closures [patchAxiosGlobally] builds around the function it found
    there ([proto] tells which of the two). *)
Inductive requestFn : Type :=
  | LibraryRequest
  | Rewriting (proto : bool) (originalRequest : requestFn).

(** The body of both closures up to the call of the saved function;
    [config] is [None] for a call without a config object. *)
Definition rewrite (proto : bool) (config : option descriptor)
  : Traced (option descriptor) :=
  match config with
  | Some c =>
      match headers c with
      | Some h =>
          if truthy (js_get h api_access_token) then
            (if proto
             then tell Log "[AXIOS PATCH] 🔍 Prototype: Transforming api_access_token → api-access-token"
             else
               tell Log "[AXIOS PATCH] 🔍 Transforming api_access_token → api-access-token" ;;
               tell Log ("[AXIOS PATCH] URL: " +:+ default "undefined" (url c))) ;;
            let token := js_get h api_access_token in
            let h1 := delete api_access_token h in
            let h2 := <[api_access_token_hyphen := token]> h1 in
            mret (Some (with_headers c h2))
          else mret config
      | None => mret config
      end
  | None => mret config
  end.

(** Calling a request function: the result is the config that reaches
    the library's own [request]. *)
Fixpoint call (f : requestFn) (config : option descriptor)
  : Traced (option descriptor) :=
  match f with
  | LibraryRequest => mret config
  | Rewriting proto originalRequest =>
      config' ← rewrite proto config;
      call originalRequest config'
  end.

(** How many rewriting closures a request function is wrapped in. *)
Fixpoint layers (f : requestFn) : nat :=
  match f with
  | LibraryRequest => 0
  | Rewriting _ g => S (layers g)
  end.

(** What [require('axios')] resolves to: [request] is [axios.request],
    [Axios_prototype_request] is [axios.Axios.prototype.request] when
    [axios.Axios && axios.Axios.prototype] holds. *)
Record axiosModule : Type := mkAxios {
  request : requestFn;
  Axios_prototype_request : option requestFn
}.

Inductive required : Type :=
  | Loaded (axios : axiosModule)
  | Throws (error : string).

(** The module-level flag together with the module registry entry. *)
Record state : Type := mkState {
  patched : bool;
  axios : required
}.

Definition patchAxiosGlobally (s : state) : Traced state :=
  if patched s then
    tell Log "[AXIOS PATCH] Already patched, skipping" ;;
    mret s
  else
    match axios s with
    | Loaded ax =>
        tell Log "[AXIOS PATCH] Patching axios module..." ;;
        let ax' :=
          {| request := Rewriting false (request ax);
             Axios_prototype_request :=
               Rewriting true <$> Axios_prototype_request ax |} in
        tell Log "[AXIOS PATCH] ✅ Axios globally patched successfully" ;;
        mret {| patched := true; axios := Loaded ax' |}
    | Throws error =>
        tell Error ("[AXIOS PATCH] ❌ Failed to patch axios: " +:+ error) ;;
        mret s
    end.

(** [n] calls in a row, the first being the one at module load. *)
Fixpoint calls (n : nat) (s : state) : state :=
  match n with
  | O => s
  | S n' => calls n' (result (patchAxiosGlobally s))
  end.

(** Layers on [axios.request] and on the prototype's [request]. *)
Definition request_layers (s : state) : nat :=
  match axios s with
  | Loaded ax => layers (request ax)
  | Throws _ => 0
  end.

Definition prototype_layers (s : state) : nat :=
  match axios s with
  | Loaded ax => from_option layers 0 (Axios_prototype_request ax)
  | Throws _ => 0
  end.

End PatchAxios.

(** ** The post-install script for the SDK *)

Module SdkPatchScript.

(** Whether [p] occurs in [s] at position 0. *)
Fixpoint occurs_at_start (p s : string) : bool :=
  match p, s with
  | EmptyString, _ => true
  | String a p', String b s' => Ascii.eqb a b && occurs_at_start p' s'
  | String _ _, EmptyString => false
  end.

(** [s.includes(needle)] *)
Fixpoint includes (s needle : string) : bool :=
  occurs_at_start needle s ||
  match s with
  | EmptyString => false
  | String _ s' => includes s' needle
  end.

Fixpoint skip (n : nat) (s : string) : string :=
  match n, s with
  | S n', String _ s' => skip n' s'
  | _, _ => s
  end.

(** [s.replace(pat, rep)] for a string pattern and a replacement without
    [$]: the first occurrence is replaced, a string without one is
    returned as it is. *)
Fixpoint replace (s pat rep : string) : string :=
  if occurs_at_start pat s then rep +:+ skip (String.length pat) s
  else match s with
       | EmptyString => EmptyString
       | String c s' => String c (replace s' pat rep)
       end.

(** The double quote, as a one-character string. *)
Definition dq : string := String (Ascii.ascii_of_nat 34) EmptyString.

Definition originalLine : string :=
  "headers[" +:+ dq +:+ "api_access_token" +:+ dq +:+ "] = token;".
Definition patchedLine : string :=
  "headers[" +:+ dq +:+ "api-access-token" +:+ dq +:+ "] = token;".

(** The first [n] characters of [s], all of [s] when it is shorter. *)
Fixpoint first (n : nat) (s : string) : string :=
  match n, s with
  | S n', String c s' => String c (first n' s')
  | _, _ => EmptyString
  end.

(** How [fs.writeFileSync] fails, with the message of the error: at the
    open, which leaves the file as it is, or after the open, which has
    truncated the file by then, so that only the first [kept] characters
    of the new text are in it (none when nothing got written). *)
Inductive write_failure : Type :=
  | FailsAtOpen (message : string)
  | FailsAfterOpen (message : string) (kept : nat).

(** The SDK's [request.js] on disk: missing, or a file with its text, the
    message of the error reading it raises, if any, and the way writing it
    fails, if it does. *)
Inductive file : Type :=
  | Missing
  | Present (content : string) (read_error : option string)
            (write_error : option write_failure).

Definition writeFileSync (content : string) : Traced unit :=
  (tt, [WriteFileSync content]).

Definition failed (message : string) (disk : file) : Traced (Z * file) :=
  tell Error ("[CHATWOOT SDK PATCH] ❌ Error patching SDK: " +:+ message) ;;
  mret (1%Z, disk).

(** One run of the script: the exit code and the file it leaves. *)
Definition run (SDK_REQUEST_FILE : string) (disk : file) : Traced (Z * file) :=
  tell Log "[CHATWOOT SDK PATCH] Starting patch process..." ;;
  tell Log ("[CHATWOOT SDK PATCH] Target file: " +:+ SDK_REQUEST_FILE) ;;
  match disk with
  | Missing =>
      tell Error "[CHATWOOT SDK PATCH] ❌ SDK request.js file not found!" ;;
      tell Error "[CHATWOOT SDK PATCH] Skipping patch (SDK may not be installed yet)" ;;
      mret (0%Z, disk)
  | Present content read_error write_error =>
      match read_error with
      | Some message => failed message disk
      | None =>
          if includes content "api-access-token" then
            tell Log "[CHATWOOT SDK PATCH] ℹ️  Already patched, skipping..." ;;
            mret (0%Z, disk)
          else if negb (includes content originalLine) then
            tell Error "[CHATWOOT SDK PATCH] ⚠️  Original line not found - SDK version may have changed" ;;
            tell Error ("[CHATWOOT SDK PATCH] Looking for: " +:+ originalLine) ;;
            mret (1%Z, disk)
          else
            let content' := replace content originalLine patchedLine in
            match write_error with
            | Some (FailsAtOpen message) => failed message disk
            | Some (FailsAfterOpen message kept) =>
                failed message (Present (first kept content') read_error write_error)
            | None =>
                writeFileSync content' ;;
                tell Log "[CHATWOOT SDK PATCH] ✅ Successfully patched Chatwoot SDK!" ;;
                tell Log "[CHATWOOT SDK PATCH] Changed: api_access_token → api-access-token" ;;
                mret (0%Z, Present content' read_error write_error)
            end
      end
  end.

(** The file a run leaves on disk, and its exit code. *)
Definition file_after (SDK_REQUEST_FILE : string) (disk : file) : file :=
  snd (result (run SDK_REQUEST_FILE disk)).

Definition exit_code (SDK_REQUEST_FILE : string) (disk : file) : Z :=
  fst (result (run SDK_REQUEST_FILE disk)).

(** The texts a run wrote to the file, in order. *)
Definition written (SDK_REQUEST_FILE : string) (disk : file) : list string :=
  omap (fun e => match e with WriteFileSync c => Some c | Line _ _ => None end)
       (trace (run SDK_REQUEST_FILE disk)).

End SdkPatchScript.

(** ** Repeated runs of the post-install script *)

Module PostInstall.

(** The file left by [n] runs of the script, one after the other. *)
Fixpoint runs (n : nat) (SDK_REQUEST_FILE : string) (disk : SdkPatchScript.file)
  : SdkPatchScript.file :=
  match n with
  | O => disk
  | S n' => runs n' SDK_REQUEST_FILE (SdkPatchScript.file_after SDK_REQUEST_FILE disk)
  end.

End PostInstall.

(** ** The other copies of the rewrite *)

(** What a call gives back: a value, or the error it throws. *)
Inductive outcome (E A : Type) : Type :=
  | Returned (a : A)
  | Threw (error : E).

Arguments Returned {E A} a.
Arguments Threw {E A} error.

(** The error of reading a property of [undefined]. *)
Inductive typeError : Type := TypeError.

Module Variants.

(** The fulfilled handler [createPatchedChatwootClient] registers on the
    client's own axios instance (chatwoot-client-patch.ts, lines 74-87). *)
Definition onClientRequest (axiosConfig : descriptor) : Traced descriptor :=
  match headers axiosConfig with
  | Some h =>
      let token := js_or (js_get h api_access_token)
                         (js_get h api_access_token_hyphen) in
      if truthy token then
        let h1 := delete api_access_token h in
        let h2 := <[api_access_token_hyphen := token]> h1 in
        tell Verbose "Patched Chatwoot SDK headers: api_access_token → api-access-token" ;;
        mret (with_headers axiosConfig h2)
      else mret axiosConfig
  | None => mret axiosConfig
  end.

Section Debug.

(** [JSON.stringify(headers, null, indent)] and [s.toUpperCase()] only
    produce log text; they are taken as they come. *)
Variable JSON_stringify : option nat -> gmap string jsval -> string.
Variable toUpperCase : string -> string.

(** The fulfilled handler of the logging version of
    [createPatchedAxiosInstance]. *)
Definition onRequestDebug (config : descriptor) : Traced descriptor :=
  tell Log ("[DEBUG] Chatwoot HTTP Request to: " +:+ default "undefined" (url config)) ;;
  tell Log ("[DEBUG] Method: " +:+ default "undefined" (toUpperCase <$> method config)) ;;
  match headers config with
  | Some h =>
      tell Log ("[DEBUG] Headers BEFORE patch: " +:+ JSON_stringify (Some 2) h) ;;
      let token := js_or (js_get h api_access_token)
                         (js_get h api_access_token_hyphen) in
      after ←
        (if truthy token then
           let h1 := delete api_access_token h in
           let h2 := <[api_access_token_hyphen := token]> h1 in
           tell Log "[DEBUG] ✅ Transformed header: api_access_token → api-access-token" ;;
           mret (with_headers config h2, h2)
         else
           tell Warn "[DEBUG] ⚠️  No api_access_token or api-access-token found in headers!" ;;
           mret (config, h));
      tell Log ("[DEBUG] Headers AFTER patch: " +:+ JSON_stringify (Some 2) after.2) ;;
      mret after.1
  | None =>
      tell Warn "[DEBUG] ⚠️  No headers object in request config!" ;;
      mret config
  end.

(** The closure the older [createPatchedChatwootClient] stores in
    [axios.request], up to the call of the saved function. It reads
    [requestConfig.url] before anything else, which throws a [TypeError]
    on a call without a config. *)
Definition sdkRewrite (requestConfig : option descriptor)
  : Traced (outcome typeError (option descriptor)) :=
  match requestConfig with
  | None => mret (Threw TypeError)
  | Some c =>
      tell Log ("[DEBUG SDK] Intercepting axios request to: " +:+ default "undefined" (url c)) ;;
      match headers c with
      | Some h =>
          tell Log ("[DEBUG SDK] Headers BEFORE patch: " +:+ JSON_stringify None h) ;;
          after ←
            (if truthy (js_get h api_access_token) then
               let h1 := <[api_access_token_hyphen := js_get h api_access_token]> h in
               let h2 := delete api_access_token h1 in
               tell Log "[DEBUG SDK] ✅ Transformed header: api_access_token → api-access-token" ;;
               mret (with_headers c h2, h2)
             else mret (c, h));
          tell Log ("[DEBUG SDK] Headers AFTER patch: " +:+ JSON_stringify None after.2) ;;
          mret (Returned (Some after.1))
      | None => mret (Returned (Some c))
      end
  end.

(** What sits in [axios.request] under that version: the library's own
    function under as many of these closures as were stored. *)
Inductive sdkRequestFn : Type :=
  | Library
  | SdkRewriting (originalAxiosRequest : sdkRequestFn).

Fixpoint sdkLayers (f : sdkRequestFn) : nat :=
  match f with
  | Library => 0
  | SdkRewriting g => S (sdkLayers g)
  end.

(** Calling it: the config that reaches the library, or the error thrown
    on the way. *)
Fixpoint sdkCall (f : sdkRequestFn) (requestConfig : option descriptor)
  : Traced (outcome typeError (option descriptor)) :=
  match f with
  | Library => mret (Returned requestConfig)
  | SdkRewriting g =>
      r ← sdkRewrite requestConfig;
      match r with
      | Returned requestConfig' => sdkCall g requestConfig'
      | Threw error => mret (Threw error)
      end
  end.

Variable ChatwootAPIConfig : Type.
Variable Client : Type.

(** What the two [require]s and [new ChatwootClient] do: each may throw
    (the error is kept as its text); [axios_request] is the function
    currently in [axios.request]. *)
Record world : Type := mkWorld {
  sdk : outcome string (ChatwootAPIConfig -> outcome string Client);
  axios_request : outcome string sdkRequestFn
}.

Definition rethrow {A} (w : world) (error : string)
  : Traced (world * outcome string A) :=
  tell Error ("Error creating patched Chatwoot client: " +:+ error) ;;
  mret (w, Threw error).

(** The older [createPatchedChatwootClient], which stores a new closure
    in [axios.request] on every call. *)
Definition createPatchedChatwootClient (w : world) (config : ChatwootAPIConfig)
  : Traced (world * outcome string Client) :=
  match sdk w with
  | Threw error => rethrow w error
  | Returned ChatwootClient =>
      match axios_request w with
      | Threw error => rethrow w error
      | Returned originalAxiosRequest =>
          let w' := {| sdk := sdk w;
                       axios_request := Returned (SdkRewriting originalAxiosRequest) |} in
          tell Log "[DEBUG SDK] ✅ Global axios.request function patched successfully" ;;
          match ChatwootClient config with
          | Threw error => rethrow w' error
          | Returned client =>
              tell Log "Chatwoot client created with patched SDK" ;;
              mret (w', Returned client)
          end
      end
  end.

(** The world after creating a client for each config of a list. *)
Fixpoint createAll (w : world) (configs : list ChatwootAPIConfig) : world :=
  match configs with
  | [] => w
  | config :: rest => createAll (result (createPatchedChatwootClient w config)).1 rest
  end.

Definition worldLayers (w : world) : nat :=
  match axios_request w with
  | Returned f => sdkLayers f
  | Threw _ => 0
  end.

End Debug.

Arguments sdk {ChatwootAPIConfig Client} w.
Arguments axios_request {ChatwootAPIConfig Client} w.
Arguments mkWorld {ChatwootAPIConfig Client} sdk axios_request.
Arguments createPatchedChatwootClient {ChatwootAPIConfig Client} w config.
Arguments createAll {ChatwootAPIConfig Client} w configs.
Arguments worldLayers {ChatwootAPIConfig Client} w.

End Variants.

(** ** Header objects with their property attributes *)

(** The interceptor is module code, hence strict code: deleting a property
    that is not configurable, assigning to one that is not writable, or
    adding one to an object that is not extensible throws a [TypeError].
    This model of the handler keeps those attributes, which
    [Object.freeze], [Object.seal] and [Object.preventExtensions] change;
    properties are own data properties. *)
Module Strict.

Record property : Type := mkProperty {
  value : jsval;
  writable : bool;
  configurable : bool
}.

Record object : Type := mkObject {
  properties : gmap string property;
  extensible : bool
}.

(** [o[k]] *)
Definition get (o : object) (k : string) : jsval :=
  default JUndefined (value <$> properties o !! k).

(** [delete o[k]]: a missing key is no error. *)
Definition delete_property (o : object) (k : string) : outcome typeError object :=
  match properties o !! k with
  | None => Returned o
  | Some p =>
      if configurable p
      then Returned {| properties := delete k (properties o);
                       extensible := extensible o |}
      else Threw TypeError
  end.

(** [o[k] = v]: an existing property keeps its attributes, a new one is
    writable and configurable. *)
Definition set_property (o : object) (k : string) (v : jsval)
  : outcome typeError object :=
  match properties o !! k with
  | Some p =>
      if writable p
      then Returned {| properties :=
                         <[k := {| value := v; writable := true;
                                   configurable := configurable p |}]>
                           (properties o);
                       extensible := extensible o |}
      else Threw TypeError
  | None =>
      if extensible o
      then Returned {| properties :=
                         <[k := {| value := v; writable := true;
                                   configurable := true |}]>
                           (properties o);
                       extensible := extensible o |}
      else Threw TypeError
  end.

(** The request config with its header object. *)
Record request : Type := mkRequest {
  header_object : option object;
  request_url : option string;
  request_method : option string;
  request_data : option jsval
}.

Definition with_object (config : request) (o : object) : request :=
  {| header_object := Some o; request_url := request_url config;
     request_method := request_method config;
     request_data := request_data config |}.

(** The fulfilled handler of [createPatchedAxiosInstance] on such a
    config: the config as the run leaves it (it is changed in place), and
    the error thrown, if any; [None] means the handler returned the
    config. *)
Definition onRequest (config : request) : Traced (request * option typeError) :=
  match header_object config with
  | Some o =>
      let token := js_or (get o api_access_token)
                         (get o api_access_token_hyphen) in
      if truthy token then
        match delete_property o api_access_token with
        | Threw error => mret (config, Some error)
        | Returned o1 =>
            match set_property o1 api_access_token_hyphen token with
            | Threw error => mret (with_object config o1, Some error)
            | Returned o2 =>
                tell Verbose "Patched axios headers: api_access_token → api-access-token" ;;
                mret (with_object config o2, None)
            end
        end
      else mret (config, None)
  | None => mret (config, None)
  end.

(** The header map of an object, and the descriptor of a config. *)
Definition headers_of (o : object) : gmap string jsval :=
  value <$> properties o.

Definition descriptor_of (config : request) : descriptor :=
  {| headers := headers_of <$> header_object config;
     url := request_url config;
     method := request_method config;
     data := request_data config |}.

(** An ordinary object: extensible, every property writable and
    configurable. *)
Definition ordinary (o : object) : bool :=
  extensible o &&
  forallb (fun kp => writable kp.2 && configurable kp.2)
          (map_to_list (properties o)).

(** A well-formed descriptor: its header object, if it has one, is an
    ordinary object. *)
Definition well_formed (config : request) : bool :=
  from_option ordinary true (header_object config).

(** What the rename needs of a header object: the underscore key can be
    deleted, and the hyphen key can be assigned. *)
Definition renamable (o : object) : bool :=
  from_option configurable true (properties o !! api_access_token) &&
  from_option writable (extensible o) (properties o !! api_access_token_hyphen).

End Strict.

(** ** Reading a header through a descriptor *)

(** [config.headers?.[k]] as a partial lookup: [None] when there is no
    header object or no such key. *)
Definition header (config : descriptor) (k : string) : option jsval :=
  h ← headers config; h !! k.

(** * Properties *)

Import ChatwootClientPatch.

Lemma names_distinct : api_access_token ≠ api_access_token_hyphen.
Proof. discriminate. Qed.

Lemma js_get_Some (h : gmap string jsval) k v : h !! k = Some v -> js_get h k = v.
Proof. unfold js_get. by intros ->. Qed.

Lemma js_get_None (h : gmap string jsval) k : h !! k = None -> js_get h k = JUndefined.
Proof. unfold js_get. by intros ->. Qed.

Lemma js_or_truthy_l a b : truthy a = true -> js_or a b = a.
Proof. unfold js_or. by intros ->. Qed.

Lemma js_or_falsy_l a b : truthy a = false -> js_or a b = b.
Proof. unfold js_or. by intros ->. Qed.

Lemma with_headers_same d h : headers d = Some h -> with_headers d h = d.
Proof. destruct d as [hd u m b]; simpl. by intros ->. Qed.

Section Interceptor.

Variable d : descriptor.

(** The three ways through the interceptor. *)
Lemma onRequest_no_headers :
  headers d = None -> onRequest d = mret d.
Proof. unfold onRequest. by intros ->. Qed.

Lemma onRequest_falsy h :
  headers d = Some h ->
  truthy (js_or (js_get h api_access_token) (js_get h api_access_token_hyphen)) = false ->
  onRequest d = mret d.
Proof. unfold onRequest. intros -> Ht. simpl. by rewrite Ht. Qed.

Lemma normalize_truthy h :
  headers d = Some h ->
  truthy (js_or (js_get h api_access_token) (js_get h api_access_token_hyphen)) = true ->
  normalize d =
    with_headers d
      (<[api_access_token_hyphen :=
           js_or (js_get h api_access_token) (js_get h api_access_token_hyphen)]>
         (delete api_access_token h)).
Proof. unfold normalize, onRequest. intros -> Ht. simpl. by rewrite Ht. Qed.

Lemma normalize_cases :
  normalize d = d ∨
  ∃ h, headers d = Some h ∧
       truthy (js_or (js_get h api_access_token) (js_get h api_access_token_hyphen)) = true ∧
       normalize d =
         with_headers d
           (<[api_access_token_hyphen :=
                js_or (js_get h api_access_token) (js_get h api_access_token_hyphen)]>
              (delete api_access_token h)).
Proof.
  destruct (headers d) as [h|] eqn:Hh.
  - destruct (truthy (js_or (js_get h api_access_token)
                            (js_get h api_access_token_hyphen))) eqn:Ht.
    + right. exists h. split; [done|]. split; [done|]. by apply normalize_truthy.
    + left. unfold normalize. by rewrite (onRequest_falsy h).
  - left. unfold normalize. by rewrite onRequest_no_headers.
Qed.

End Interceptor.

(** The same three ways through the closures of [patchAxiosGlobally]. *)
Section GlobalWrapper.

Import PatchAxios.

Variable proto : bool.
Variable d : descriptor.

Lemma rewrite_falsy h :
  headers d = Some h -> truthy (js_get h api_access_token) = false ->
  rewrite proto (Some d) = mret (Some d).
Proof. unfold rewrite. intros -> Ht. by rewrite Ht. Qed.

Lemma rewrite_no_headers :
  headers d = None -> rewrite proto (Some d) = mret (Some d).
Proof. unfold rewrite. by intros ->. Qed.

Lemma rewrite_truthy h :
  headers d = Some h -> truthy (js_get h api_access_token) = true ->
  result (rewrite proto (Some d)) =
    Some (with_headers d
            (<[api_access_token_hyphen := js_get h api_access_token]>
               (delete api_access_token h))).
Proof. unfold rewrite. intros -> Ht. rewrite Ht. by destruct proto. Qed.

End GlobalWrapper.

(** ** Lookups through [header] *)

Lemma header_with_headers d h k : header (with_headers d h) k = h !! k.
Proof. reflexivity. Qed.

Lemma header_Some d k v :
  header d k = Some v -> ∃ h, headers d = Some h ∧ h !! k = Some v.
Proof.
  unfold header. destruct (headers d) as [h|]; simpl; [|done].
  intros Hk. by exists h.
Qed.

Lemma header_lookup d h k : headers d = Some h -> header d k = h !! k.
Proof. unfold header. by intros ->. Qed.

Lemma header_js_get d h k :
  headers d = Some h -> js_get h k = default JUndefined (header d k).
Proof. intros Hh. by rewrite (header_lookup d h k Hh). Qed.

(** After the rename the underscore key is gone and the hyphen key holds
    the token, whatever the map held before. *)
Lemma renamed_lookups (h : gmap string jsval) t :
  <[api_access_token_hyphen := t]> (delete api_access_token h) !! api_access_token = None
  ∧ <[api_access_token_hyphen := t]> (delete api_access_token h) !! api_access_token_hyphen = Some t.
Proof.
  split.
  - rewrite lookup_insert_ne; [apply lookup_delete_eq|].
    intros E. symmetry in E. by apply names_distinct.
  - apply lookup_insert_eq.
Qed.

Lemma renamed_other (h : gmap string jsval) t k :
  k ≠ api_access_token -> k ≠ api_access_token_hyphen ->
  <[api_access_token_hyphen := t]> (delete api_access_token h) !! k = h !! k.
Proof.
  intros H1 H2. rewrite lookup_insert_ne; [|congruence].
  rewrite lookup_delete_ne; [done|congruence].
Qed.

(** ** The rename itself *)

(** C1 (as amended). A descriptor that holds a truthy value [v] under
    [api_access_token] and has no [api-access-token] key comes out of the
    interceptor, and out of either closure of the global patch, without
    the underscore key and with [api-access-token] bound to [v]. *)
Theorem underscore_token_renamed (d : descriptor) (v : jsval) :
  header d api_access_token = Some v ->
  header d api_access_token_hyphen = None ->
  truthy v = true ->
  (header (normalize d) api_access_token = None
   ∧ header (normalize d) api_access_token_hyphen = Some v)
  ∧ ∀ proto, ∃ d',
      result (PatchAxios.rewrite proto (Some d)) = Some d'
      ∧ header d' api_access_token = None
      ∧ header d' api_access_token_hyphen = Some v.
Proof.
  intros Hu Hy Ht.
  destruct (header_Some _ _ _ Hu) as (h & Hh & Hk).
  pose proof (js_get_Some _ _ _ Hk) as Hg.
  split.
  - rewrite (normalize_truthy d h Hh); rewrite Hg, (js_or_truthy_l _ _ Ht); [|done].
    rewrite !header_with_headers. apply renamed_lookups.
  - intros proto. eexists. split.
    + apply (rewrite_truthy proto d h Hh). by rewrite Hg.
    + rewrite !header_with_headers, Hg. apply renamed_lookups.
Qed.

Lemma underscore_token_renamed_witness :
  let d := mkDescriptor (Some {[ api_access_token := JStr "tok-123" ]})
                        (Some "/api/v1/accounts/1/contacts") None None in
  (header d api_access_token = Some (JStr "tok-123")
   ∧ header d api_access_token_hyphen = None
   ∧ truthy (JStr "tok-123") = true)
  ∧ header (normalize d) api_access_token = None
  ∧ header (normalize d) api_access_token_hyphen = Some (JStr "tok-123").
Proof.
  intros d. split; [by vm_compute|].
  apply (underscore_token_renamed d (JStr "tok-123")); reflexivity.
Defined.

(** C1 as written fails: an empty token under [api_access_token] is left
    where it is and no [api-access-token] key appears. *)
Lemma empty_underscore_token_not_renamed :
  let d := mkDescriptor (Some {[ api_access_token := JStr EmptyString ]})
                        None None None in
  header d api_access_token = Some (JStr EmptyString)
  ∧ header d api_access_token_hyphen = None
  ∧ ¬ (header (normalize d) api_access_token = None
       ∧ header (normalize d) api_access_token_hyphen = Some (JStr EmptyString))
  ∧ ¬ (∃ d', result (PatchAxios.rewrite false (Some d)) = Some d'
             ∧ header d' api_access_token = None
             ∧ header d' api_access_token_hyphen = Some (JStr EmptyString)).
Proof.
  intros d. split; [reflexivity|]. split; [reflexivity|]. split.
  - intros [H _]. vm_compute in H. discriminate.
  - intros (d' & Hd & H & _). vm_compute in Hd. injection Hd as <-.
    vm_compute in H. discriminate.
Qed.

(** Renaming a map that has already been renamed gives it back. *)
Lemma renamed_again (h : gmap string jsval) t :
  let h' := <[api_access_token_hyphen := t]> (delete api_access_token h) in
  <[api_access_token_hyphen := t]> (delete api_access_token h') = h'.
Proof.
  intros h'. destruct (renamed_lookups h t) as [Hu Hy]. fold h' in Hu, Hy.
  rewrite (delete_id h' _ Hu). by apply insert_id.
Qed.

(** A renamed descriptor is a fixed point of the interceptor. *)
Lemma normalize_renamed d (h : gmap string jsval) t :
  truthy t = true ->
  let d' := with_headers d
              (<[api_access_token_hyphen := t]> (delete api_access_token h)) in
  normalize d' = d'.
Proof.
  intros Ht d'.
  set (h' := <[api_access_token_hyphen := t]> (delete api_access_token h)).
  destruct (renamed_lookups h t) as [Hu Hy]. fold h' in Hu, Hy.
  assert (Htok : js_or (js_get h' api_access_token)
                       (js_get h' api_access_token_hyphen) = t).
  { rewrite (js_get_None _ _ Hu), (js_get_Some _ _ _ Hy). reflexivity. }
  rewrite (normalize_truthy d' h'); [|reflexivity|by rewrite Htok].
  rewrite Htok. unfold h'. rewrite renamed_again. reflexivity.
Qed.

(** C2. The interceptor is idempotent: running it on its own output gives
    that output back, for every descriptor. *)
Theorem normalize_idempotent (d : descriptor) :
  normalize (normalize d) = normalize d.
Proof.
  destruct (normalize_cases d) as [E | (h & Hh & Ht & E)].
  - by rewrite !E.
  - rewrite E. by apply normalize_renamed.
Qed.

(** ** The underscore key after the rewrite *)

(** C3 (as amended). When the credential the code looks up is truthy
    ([api_access_token || api-access-token] in the interceptor,
    [api_access_token] in the global closures) the returned header map has
    no [api_access_token] key; in every other case (a falsy credential, or
    no header object) the descriptor comes back as it was. So a surviving
    [api_access_token] key is bound to a falsy value. *)
Theorem underscore_key_gone_or_falsy (d : descriptor) :
  (∀ h, headers d = Some h ->
        truthy (js_or (js_get h api_access_token)
                      (js_get h api_access_token_hyphen)) = true ->
        header (normalize d) api_access_token = None)
  ∧ ((∀ h, headers d = Some h ->
           truthy (js_or (js_get h api_access_token)
                         (js_get h api_access_token_hyphen)) = false) ->
     normalize d = d)
  ∧ (∀ v, header (normalize d) api_access_token = Some v ->
          truthy v = false ∧ normalize d = d)
  ∧ (∀ proto h,
        headers d = Some h ->
        truthy (js_get h api_access_token) = true ->
        ∃ d', result (PatchAxios.rewrite proto (Some d)) = Some d'
              ∧ header d' api_access_token = None)
  ∧ (∀ proto,
        (∀ h, headers d = Some h ->
              truthy (js_get h api_access_token) = false) ->
        result (PatchAxios.rewrite proto (Some d)) = Some d)
  ∧ (∀ proto d' v,
        result (PatchAxios.rewrite proto (Some d)) = Some d' ->
        header d' api_access_token = Some v ->
        truthy v = false ∧ d' = d).
Proof.
  split; [|split; [|split; [|split; [|split]]]].
  - intros h Hh Ht. rewrite (normalize_truthy d h Hh Ht), header_with_headers.
    apply renamed_lookups.
  - intros Hf. unfold normalize. destruct (headers d) as [h|] eqn:Hh.
    + by rewrite (onRequest_falsy d h Hh (Hf h eq_refl)).
    + by rewrite (onRequest_no_headers d Hh).
  - intros v Hv. destruct (normalize_cases d) as [E | (h & Hh & Ht & E)].
    + split; [|done]. rewrite E in Hv.
      destruct (header_Some _ _ _ Hv) as (h & Hh & Hk).
      destruct (truthy v) eqn:Ht; [|done].
      assert (Htok : truthy (js_or (js_get h api_access_token)
                                   (js_get h api_access_token_hyphen)) = true).
      { by rewrite (js_get_Some _ _ _ Hk), (js_or_truthy_l _ _ Ht). }
      pose proof (normalize_truthy d h Hh Htok) as E'. rewrite E in E'.
      rewrite E', header_with_headers in Hv.
      destruct (renamed_lookups h (js_or (js_get h api_access_token)
                                         (js_get h api_access_token_hyphen))) as [Hu _].
      congruence.
    + rewrite E, header_with_headers in Hv.
      destruct (renamed_lookups h (js_or (js_get h api_access_token)
                                         (js_get h api_access_token_hyphen))) as [Hu _].
      congruence.
  - intros proto h Hh Ht. eexists. split; [by apply (rewrite_truthy proto d h)|].
    rewrite header_with_headers. apply renamed_lookups.
  - intros proto Hf. destruct (headers d) as [h|] eqn:Hh.
    + by rewrite (rewrite_falsy proto d h Hh (Hf h eq_refl)).
    + by rewrite (rewrite_no_headers proto d Hh).
  - intros proto d' v Hd Hv.
    destruct (headers d) as [h|] eqn:Hh.
    + destruct (truthy (js_get h api_access_token)) eqn:Ht.
      * rewrite (rewrite_truthy proto d h Hh Ht) in Hd. injection Hd as <-.
        rewrite header_with_headers in Hv.
        destruct (renamed_lookups h (js_get h api_access_token)) as [Hu _].
        congruence.
      * rewrite (rewrite_falsy proto d h Hh Ht) in Hd. injection Hd as <-.
        split; [|done]. rewrite (header_lookup d h _ Hh) in Hv.
        by rewrite (js_get_Some _ _ _ Hv) in Ht.
    + rewrite (rewrite_no_headers proto d Hh) in Hd. injection Hd as <-.
      unfold header in Hv. by rewrite Hh in Hv.
Qed.

Lemma underscore_key_gone_or_falsy_witness :
  let d := mkDescriptor (Some {[ api_access_token := JStr EmptyString ]})
                        None None None in
  let e := mkDescriptor (Some ∅) (Some "/api/v1/ping") None None in
  let f := mkDescriptor (Some {[ api_access_token := JStr "tok-123" ]})
                        None None None in
  (header (normalize d) api_access_token = Some (JStr EmptyString)
   ∧ truthy (JStr EmptyString) = false ∧ normalize d = d)
  ∧ normalize e = e
  ∧ result (PatchAxios.rewrite false (Some e)) = Some e
  ∧ header (normalize f) api_access_token = None.
Proof.
  intros d e f. split; [|split; [|split]].
  - split; [reflexivity|].
    apply (proj1 (proj2 (proj2 (underscore_key_gone_or_falsy d)))). reflexivity.
  - apply (proj1 (proj2 (underscore_key_gone_or_falsy e))).
    intros h [= <-]. reflexivity.
  - apply (proj1 (proj2 (proj2 (proj2 (proj2 (underscore_key_gone_or_falsy e)))))).
    intros h [= <-]. reflexivity.
  - apply (proj1 (underscore_key_gone_or_falsy f) {[ api_access_token := JStr "tok-123" ]});
      reflexivity.
Defined.

(** C3 as written fails on the same input as C1: the empty token stays
    under [api_access_token]. *)
Lemma empty_underscore_key_survives :
  let d := mkDescriptor (Some {[ api_access_token := JStr EmptyString ]})
                        (Some "/api/v1/ping") None None in
  header (normalize d) api_access_token ≠ None
  ∧ ∀ proto,
      (h ← result (PatchAxios.rewrite proto (Some d)); header h api_access_token) ≠ None.
Proof.
  intros d. split.
  - vm_compute. discriminate.
  - intros []; vm_compute; discriminate.
Qed.

(** ** Both keys present *)

(** C4 (as amended). With both keys present and a truthy value [v1] under
    [api_access_token], the result binds [api-access-token] to [v1]
    whatever [v2] was, and has no [api_access_token] key; this holds for
    the interceptor and for the global closures. *)
Theorem underscore_takes_precedence (d : descriptor) (v1 v2 : jsval) :
  header d api_access_token = Some v1 ->
  header d api_access_token_hyphen = Some v2 ->
  truthy v1 = true ->
  (header (normalize d) api_access_token_hyphen = Some v1
   ∧ header (normalize d) api_access_token = None)
  ∧ ∀ proto, ∃ d',
      result (PatchAxios.rewrite proto (Some d)) = Some d'
      ∧ header d' api_access_token_hyphen = Some v1
      ∧ header d' api_access_token = None.
Proof.
  intros Hu _ Ht.
  destruct (header_Some _ _ _ Hu) as (h & Hh & Hk).
  pose proof (js_get_Some _ _ _ Hk) as Hg.
  destruct (renamed_lookups h v1) as [Hgone Hset].
  split.
  - rewrite (normalize_truthy d h Hh); rewrite Hg, (js_or_truthy_l _ _ Ht); [|done].
    by rewrite !header_with_headers.
  - intros proto. eexists. split.
    + apply (rewrite_truthy proto d h Hh). by rewrite Hg.
    + by rewrite !header_with_headers, Hg.
Qed.

Lemma underscore_takes_precedence_witness :
  let d := mkDescriptor
             (Some (<[ api_access_token := JStr "new" ]>
                      {[ api_access_token_hyphen := JStr "old" ]}))
             None None None in
  (header d api_access_token = Some (JStr "new")
   ∧ header d api_access_token_hyphen = Some (JStr "old")
   ∧ truthy (JStr "new") = true)
  ∧ header (normalize d) api_access_token_hyphen = Some (JStr "new")
  ∧ header (normalize d) api_access_token = None.
Proof.
  intros d. split; [by vm_compute|].
  apply (underscore_takes_precedence d (JStr "new") (JStr "old")); reflexivity.
Defined.

(** C4 as written fails when the underscore value is falsy: the
    interceptor then keeps the hyphen value, and the global closure leaves
    both keys in place. *)
Lemma falsy_underscore_loses_precedence :
  let v1 := JStr EmptyString in
  let v2 := JStr "tok" in
  let d := mkDescriptor
             (Some (<[ api_access_token := v1 ]>
                      {[ api_access_token_hyphen := v2 ]}))
             None None None in
  header d api_access_token = Some v1
  ∧ header d api_access_token_hyphen = Some v2
  ∧ header (normalize d) api_access_token_hyphen = Some v2
  ∧ ¬ (header (normalize d) api_access_token_hyphen = Some v1
       ∧ header (normalize d) api_access_token = None)
  ∧ ¬ (∃ d', result (PatchAxios.rewrite false (Some d)) = Some d'
             ∧ header d' api_access_token_hyphen = Some v1
             ∧ header d' api_access_token = None).
Proof.
  intros v1 v2 d. repeat split; try reflexivity.
  - intros [H _]. vm_compute in H. discriminate.
  - intros (d' & Hd & H & _). vm_compute in Hd. injection Hd as <-.
    vm_compute in H. discriminate.
Qed.

(** ** Descriptors the rewrite leaves alone *)

(** C5. A descriptor without the [api_access_token] key comes back
    unchanged: when [api-access-token] is there (with any value), and when
    neither key is there. In the second case nothing is logged either and
    the returned header map still has neither key. A descriptor without a
    header object comes back unchanged too. *)
Theorem no_underscore_key_unchanged (d : descriptor) :
  (∀ h v, headers d = Some h ->
          h !! api_access_token = None ->
          h !! api_access_token_hyphen = Some v ->
          normalize d = d)
  ∧ (∀ h, headers d = Some h ->
          h !! api_access_token = None ->
          h !! api_access_token_hyphen = None ->
          onRequest d = (d, [])
          ∧ header (normalize d) api_access_token = None
          ∧ header (normalize d) api_access_token_hyphen = None)
  ∧ (headers d = None -> onRequest d = (d, [])).
Proof.
  split; [|split].
  - intros h v Hh Hu Hy.
    destruct (truthy v) eqn:Ht.
    + rewrite (normalize_truthy d h Hh);
        rewrite (js_get_None _ _ Hu), (js_get_Some _ _ _ Hy); [|done].
      change (js_or JUndefined v) with v.
      rewrite (delete_id h _ Hu), (insert_id h _ _ Hy).
      by apply with_headers_same.
    + unfold normalize. rewrite (onRequest_falsy d h Hh); [done|].
      by rewrite (js_get_None _ _ Hu), (js_get_Some _ _ _ Hy).
  - intros h Hh Hu Hy.
    assert (E : onRequest d = (d, [])).
    { apply (onRequest_falsy d h Hh).
      by rewrite (js_get_None _ _ Hu), (js_get_None _ _ Hy). }
    split; [done|]. unfold normalize. rewrite E. simpl.
    by rewrite !(header_lookup d h _ Hh).
  - apply onRequest_no_headers.
Qed.

Lemma no_underscore_key_unchanged_witness :
  let h : gmap string jsval := {[ api_access_token_hyphen := JStr "tok-123" ]} in
  let d := mkDescriptor (Some h) (Some "/api/v1/ping") (Some "get") None in
  let e := mkDescriptor (Some ∅) (Some "/api/v1/ping") None None in
  normalize d = d ∧ onRequest e = (e, []).
Proof.
  intros h d e. split.
  - apply (proj1 (no_underscore_key_unchanged d) h (JStr "tok-123")); reflexivity.
  - apply (proj1 (proj2 (no_underscore_key_unchanged e)) ∅); reflexivity.
Defined.

(** ** Frame *)

(** C6. Apart from the two header entries [api_access_token] and
    [api-access-token], the interceptor returns what it was given: every
    other header has the value it had (none added, removed or changed),
    the header object is there exactly when it was, and URL, method and
    body are the same. *)
Theorem normalize_frame (d : descriptor) :
  (∀ k, k ≠ api_access_token -> k ≠ api_access_token_hyphen ->
        header (normalize d) k = header d k)
  ∧ (headers (normalize d) = None ↔ headers d = None)
  ∧ url (normalize d) = url d
  ∧ method (normalize d) = method d
  ∧ data (normalize d) = data d.
Proof.
  destruct (normalize_cases d) as [E | (h & Hh & _ & E)]; rewrite E.
  - repeat split; done.
  - repeat split; try done.
    + intros k H1 H2. rewrite header_with_headers, (header_lookup d h k Hh).
      by apply renamed_other.
    + simpl. by rewrite Hh.
Qed.

Lemma normalize_frame_witness :
  let d := mkDescriptor
             (Some (<[ "Content-Type" := JStr "application/json" ]>
                      {[ api_access_token := JStr "tok-123" ]}))
             (Some "/api/v1/accounts/1/contacts") (Some "post")
             (Some (JStr "{}")) in
  header (normalize d) "Content-Type" = Some (JStr "application/json").
Proof.
  intros d.
  rewrite (proj1 (normalize_frame d) "Content-Type"); [reflexivity|done|done].
Defined.

(** ** Totality *)

Section StrictObjects.

Import Strict.

Lemma get_headers_of o k : get o k = js_get (headers_of o) k.
Proof. unfold get, js_get, headers_of. by rewrite lookup_fmap. Qed.

Lemma ordinary_spec o :
  ordinary o = true ↔
  extensible o = true
  ∧ ∀ k p, properties o !! k = Some p -> writable p = true ∧ configurable p = true.
Proof.
  unfold ordinary. rewrite andb_true_iff, forallb_forall.
  split; intros [He Hp]; (split; [done|]).
  - intros k p Hk. apply andb_true_iff.
    apply (Hp (k, p)). apply list_elem_of_In. by apply elem_of_map_to_list.
  - intros [k p] Hin. apply andb_true_iff. apply (Hp k).
    apply elem_of_map_to_list. by apply list_elem_of_In.
Qed.

(** On an ordinary object a delete goes through and gives an ordinary
    object. *)
Lemma delete_property_ordinary o k :
  ordinary o = true ->
  ∃ o1, delete_property o k = Returned o1
        ∧ headers_of o1 = delete k (headers_of o)
        ∧ ordinary o1 = true.
Proof.
  intros Ho. pose proof (proj1 (ordinary_spec o) Ho) as [He Hp].
  unfold delete_property. destruct (properties o !! k) as [p|] eqn:Hk.
  - destruct (Hp k p Hk) as [_ ->]. eexists. split; [done|]. split.
    + unfold headers_of. simpl. apply fmap_delete.
    + apply ordinary_spec. split; [done|]. simpl. intros k' p' Hk'.
      apply lookup_delete_Some in Hk' as [_ Hk']. by apply (Hp k').
  - exists o. split; [done|]. split; [|done].
    unfold headers_of. symmetry. apply delete_id. by rewrite lookup_fmap, Hk.
Qed.

(** On an ordinary object an assignment goes through and gives an
    ordinary object. *)
Lemma set_property_ordinary o k v :
  ordinary o = true ->
  ∃ o2, set_property o k v = Returned o2
        ∧ headers_of o2 = <[k := v]> (headers_of o)
        ∧ ordinary o2 = true.
Proof.
  intros Ho. pose proof (proj1 (ordinary_spec o) Ho) as [He Hp].
  unfold set_property. destruct (properties o !! k) as [p|] eqn:Hk.
  - destruct (Hp k p Hk) as [-> Hc]. eexists. split; [done|]. split.
    + unfold headers_of. simpl. by rewrite fmap_insert.
    + apply ordinary_spec. split; [done|]. simpl. intros k' p' Hk'.
      apply lookup_insert_Some in Hk' as [[_ <-]|[_ Hk']]; [done|].
      by apply (Hp k').
  - rewrite He. eexists. split; [done|]. split.
    + unfold headers_of. simpl. by rewrite fmap_insert.
    + apply ordinary_spec. split; [done|]. simpl. intros k' p' Hk'.
      apply lookup_insert_Some in Hk' as [[_ <-]|[_ Hk']]; [done|].
      by apply (Hp k').
Qed.

End StrictObjects.

(** C7. On every well-formed descriptor (its header object, if it has
    one, is an ordinary object: extensible, its properties writable and
    configurable) the interceptor throws nothing and returns a
    descriptor: the one [normalize] gives, with the URL, method and body
    of the input, still well-formed; and the only other thing the run
    leaves behind is at most the one verbose log line. *)
Theorem interceptor_total_on_well_formed (config : Strict.request) :
  Strict.well_formed config = true ->
  ∃ config' evs,
    Strict.onRequest config = ((config', None), evs)
    ∧ Strict.descriptor_of config' = normalize (Strict.descriptor_of config)
    ∧ Strict.request_url config' = Strict.request_url config
    ∧ Strict.request_method config' = Strict.request_method config
    ∧ Strict.request_data config' = Strict.request_data config
    ∧ (Strict.header_object config' = None ↔ Strict.header_object config = None)
    ∧ Strict.well_formed config' = true
    ∧ evs = trace (onRequest (Strict.descriptor_of config))
    ∧ (evs = []
       ∨ evs = [Line Verbose
                  "Patched axios headers: api_access_token → api-access-token"]).
Proof.
  intros Hwf. destruct config as [[o|] u m b].
  - unfold Strict.well_formed in Hwf. cbn [Strict.header_object from_option] in Hwf.
    unfold Strict.onRequest, normalize, onRequest, Strict.descriptor_of.
    cbn [Strict.header_object Strict.request_url Strict.request_method
         Strict.request_data headers fmap option_fmap option_map].
    rewrite !get_headers_of.
    destruct (truthy (js_or (js_get (Strict.headers_of o) api_access_token)
                            (js_get (Strict.headers_of o) api_access_token_hyphen)))
      eqn:Ht.
    + destruct (delete_property_ordinary o api_access_token Hwf)
        as (o1 & -> & E1 & Ho1).
      destruct (set_property_ordinary o1 api_access_token_hyphen
                  (js_or (js_get (Strict.headers_of o) api_access_token)
                         (js_get (Strict.headers_of o) api_access_token_hyphen)) Ho1)
        as (o2 & -> & E2 & Ho2).
      eexists _, _. split; [reflexivity|].
      split.
      { unfold Strict.with_object, with_headers, result.
        cbn [fst Strict.header_object Strict.request_url Strict.request_method
             Strict.request_data headers url method data
             fmap option_fmap option_map].
        by rewrite E2, E1. }
      split; [reflexivity|]. split; [reflexivity|]. split; [reflexivity|].
      split; [split; intros H; discriminate H|].
      split; [exact Ho2|]. split; [reflexivity|]. by right.
    + eexists _, _. split; [reflexivity|].
      split; [reflexivity|].
      split; [reflexivity|]. split; [reflexivity|]. split; [reflexivity|].
      split; [split; intros H; discriminate H|].
      split; [exact Hwf|]. split; [reflexivity|]. by left.
  - eexists _, _. split; [reflexivity|].
    split; [reflexivity|].
    split; [reflexivity|]. split; [reflexivity|]. split; [reflexivity|].
    split; [done|]. split; [reflexivity|]. split; [reflexivity|]. by left.
Qed.

Lemma interceptor_total_on_well_formed_witness :
  let o := Strict.mkObject
             {[ api_access_token := Strict.mkProperty (JStr "tok-123") true true ]}
             true in
  let config := Strict.mkRequest (Some o) (Some "/api/v1/accounts/1/contacts")
                                 (Some "get") None in
  Strict.well_formed config = true
  ∧ ∃ config' evs,
      Strict.onRequest config = ((config', None), evs)
      ∧ Strict.descriptor_of config' = normalize (Strict.descriptor_of config).
Proof.
  intros o config.
  assert (Hwf : Strict.well_formed config = true) by (vm_compute; reflexivity).
  split; [exact Hwf|].
  destruct (interceptor_total_on_well_formed config Hwf)
    as (config' & evs & E & Hd & _).
  exists config', evs. split; [exact E | exact Hd].
Defined.

(** ** Falsy credentials *)

(** C8. A descriptor whose [api_access_token] key holds a falsy value, and
    whose [api-access-token] key holds no truthy value, goes through the
    interceptor and through the global closures unchanged and unlogged:
    the underscore key stays and the hyphen key is not set. *)
Theorem falsy_token_left_alone (d : descriptor) (v : jsval) :
  header d api_access_token = Some v ->
  truthy v = false ->
  (∀ w, header d api_access_token_hyphen = Some w -> truthy w = false) ->
  onRequest d = (d, [])
  ∧ header (normalize d) api_access_token = Some v
  ∧ header (normalize d) api_access_token_hyphen = header d api_access_token_hyphen
  ∧ ∀ proto, PatchAxios.rewrite proto (Some d) = (Some d, []).
Proof.
  intros Hu Hv Hy.
  destruct (header_Some _ _ _ Hu) as (h & Hh & Hk).
  pose proof (js_get_Some _ _ _ Hk) as Hg.
  assert (E : onRequest d = (d, [])).
  { apply (onRequest_falsy d h Hh). rewrite Hg, (js_or_falsy_l _ _ Hv).
    rewrite (header_js_get d h _ Hh).
    destruct (header d api_access_token_hyphen) as [w|]; [by apply Hy|done]. }
  split; [done|]. unfold normalize. rewrite E. simpl.
  repeat split; try done.
  intros proto. apply (rewrite_falsy proto d h Hh). by rewrite Hg.
Qed.

Lemma falsy_token_left_alone_witness :
  let d := mkDescriptor (Some {[ api_access_token := JStr EmptyString ]})
                        (Some "/api/v1/ping") None None in
  header d api_access_token = Some (JStr EmptyString)
  ∧ onRequest d = (d, [])
  ∧ header (normalize d) api_access_token = Some (JStr EmptyString)
  ∧ header (normalize d) api_access_token_hyphen = None.
Proof.
  intros d. split; [reflexivity|].
  destruct (falsy_token_left_alone d (JStr EmptyString)) as (H1 & H2 & H3 & _);
    [reflexivity | reflexivity | intros w Hw; vm_compute in Hw; discriminate |].
  split; [exact H1|]. split; [exact H2|]. exact H3.
Defined.

(** ** The global patch is applied once *)

Section PatchOnce.

Import PatchAxios.

(** With the flag set, a call changes nothing and only says so. *)
Lemma patchAxiosGlobally_patched s :
  patched s = true ->
  patchAxiosGlobally s =
    (s, [Line Log "[AXIOS PATCH] Already patched, skipping"]).
Proof. unfold patchAxiosGlobally. by intros ->. Qed.

(** The first call on a loadable module wraps both functions and sets
    the flag. *)
Lemma patchAxiosGlobally_fresh ax :
  result (patchAxiosGlobally {| patched := false; axios := Loaded ax |}) =
    {| patched := true;
       axios := Loaded {| request := Rewriting false (request ax);
                          Axios_prototype_request :=
                            Rewriting true <$> Axios_prototype_request ax |} |}.
Proof. reflexivity. Qed.

(** When [require] throws, the state is left as it was. *)
Lemma patchAxiosGlobally_throws error :
  result (patchAxiosGlobally {| patched := false; axios := Throws error |}) =
    {| patched := false; axios := Throws error |}.
Proof. reflexivity. Qed.

Lemma calls_patched n s : patched s = true -> calls n s = s.
Proof.
  intros Hp. induction n as [|n IH]; [done|].
  simpl. by rewrite (patchAxiosGlobally_patched s Hp).
Qed.

Lemma calls_throws n error :
  calls n {| patched := false; axios := Throws error |} =
    {| patched := false; axios := Throws error |}.
Proof. induction n as [|n IH]; [done|]. exact IH. Qed.

(** Any number of calls is one call, or none. *)
Lemma calls_once n s :
  calls n s = s ∨ calls n s = result (patchAxiosGlobally s).
Proof.
  destruct n as [|n]; [by left|]. right. simpl.
  destruct s as [[] [ax|error]].
  - rewrite patchAxiosGlobally_patched by done. by apply calls_patched.
  - rewrite patchAxiosGlobally_patched by done. by apply calls_patched.
  - rewrite patchAxiosGlobally_fresh. by apply calls_patched.
  - rewrite patchAxiosGlobally_throws. apply calls_throws.
Qed.

Lemma layers_after_one_call s :
  (request_layers (result (patchAxiosGlobally s)) ≤ S (request_layers s))%nat
  ∧ (prototype_layers (result (patchAxiosGlobally s)) ≤ S (prototype_layers s))%nat.
Proof.
  destruct s as [[] [ax|error]];
    try (rewrite patchAxiosGlobally_patched by done; simpl; lia).
  - rewrite patchAxiosGlobally_fresh.
    unfold request_layers, prototype_layers. simpl.
    destruct (Axios_prototype_request ax); simpl; lia.
  - rewrite patchAxiosGlobally_throws. lia.
Qed.

(** Through one rewriting layer over the library's own function, a
    config reaches the library exactly as [rewrite] leaves it. *)
Lemma call_one_layer proto config :
  result (call (Rewriting proto LibraryRequest) config) =
    result (rewrite proto config).
Proof. simpl. by destruct (rewrite proto config). Qed.

End PatchOnce.

(** C9. Starting from the freshly loaded module (flag unset) with a
    loadable axios, the first call of [patchAxiosGlobally] wraps
    [axios.request] and, when there is one, [Axios.prototype.request] in a
    rewriting closure and sets the flag; every later call finds the flag,
    logs that it skips and returns the state as it is, so any number of
    calls gives the state the first call gave. From any state at all, any
    number of calls adds at most one rewriting layer to either function. *)
Theorem patchAxiosGlobally_at_most_once :
  (∀ ax,
     let s0 := PatchAxios.mkState false (PatchAxios.Loaded ax) in
     let s1 := result (PatchAxios.patchAxiosGlobally s0) in
     PatchAxios.patched s1 = true
     ∧ PatchAxios.axios s1 =
         PatchAxios.Loaded
           (PatchAxios.mkAxios
              (PatchAxios.Rewriting false (PatchAxios.request ax))
              (PatchAxios.Rewriting true <$> PatchAxios.Axios_prototype_request ax))
     ∧ PatchAxios.patchAxiosGlobally s1 =
         (s1, [Line Log "[AXIOS PATCH] Already patched, skipping"])
     ∧ ∀ n, PatchAxios.calls (S n) s0 = s1)
  ∧ (∀ s, PatchAxios.patched s = true ->
          PatchAxios.patchAxiosGlobally s =
            (s, [Line Log "[AXIOS PATCH] Already patched, skipping"]))
  ∧ (∀ s n,
       (PatchAxios.request_layers (PatchAxios.calls n s)
          ≤ S (PatchAxios.request_layers s))%nat
       ∧ (PatchAxios.prototype_layers (PatchAxios.calls n s)
          ≤ S (PatchAxios.prototype_layers s))%nat).
Proof.
  split; [|split].
  - intros ax s0 s1. repeat split.
    intros n. simpl. fold s1. by apply calls_patched.
  - apply patchAxiosGlobally_patched.
  - intros s n. destruct (calls_once n s) as [-> | ->].
    + lia.
    + apply layers_after_one_call.
Qed.

Lemma patchAxiosGlobally_at_most_once_witness :
  let s0 := PatchAxios.mkState false
              (PatchAxios.Loaded
                 (PatchAxios.mkAxios PatchAxios.LibraryRequest
                                     (Some PatchAxios.LibraryRequest))) in
  let s1 := result (PatchAxios.patchAxiosGlobally s0) in
  PatchAxios.patched s1 = true
  ∧ PatchAxios.patchAxiosGlobally s1 =
      (s1, [Line Log "[AXIOS PATCH] Already patched, skipping"])
  ∧ (PatchAxios.request_layers (PatchAxios.calls 3 s0) ≤ 1)%nat.
Proof.
  intros s0 s1. split; [reflexivity|]. split.
  - apply (proj1 (proj2 patchAxiosGlobally_at_most_once) s1). reflexivity.
  - apply (proj2 (proj2 patchAxiosGlobally_at_most_once) s0 3).
Defined.

(** ** The post-install script *)

Section Strings.

Import SdkPatchScript.

Lemma app_nil_string (b : string) : EmptyString +:+ b = b.
Proof. reflexivity. Qed.

Lemma app_cons_string c (a b : string) : String c a +:+ b = String c (a +:+ b).
Proof. reflexivity. Qed.

Lemma occurs_at_start_app p a b :
  occurs_at_start p a = true -> occurs_at_start p (a +:+ b) = true.
Proof.
  revert a. induction p as [|c p IH]; intros a; [done|].
  destruct a as [|c' a]; simpl; [done|].
  intros [-> H]%andb_true_iff. rewrite ?app_cons_string. simpl.
  by rewrite (IH a H).
Qed.

Lemma occurs_at_start_skip p s :
  occurs_at_start p s = true -> s = p +:+ skip (String.length p) s.
Proof.
  revert s. induction p as [|c p IH]; intros s; [done|].
  destruct s as [|c' s]; simpl; [done|].
  intros [Hc H]%andb_true_iff. apply Ascii.eqb_eq in Hc as ->.
  rewrite app_cons_string. f_equal. by apply IH.
Qed.

Lemma includes_unfold s n :
  includes s n =
    occurs_at_start n s ||
    match s with
    | EmptyString => false
    | String _ s' => includes s' n
    end.
Proof. by destruct s. Qed.

Lemma includes_app_l a b n :
  includes a n = true -> includes (a +:+ b) n = true.
Proof.
  induction a as [|c a IH]; rewrite includes_unfold; intros H;
    rewrite includes_unfold; apply orb_true_iff in H as [H|H].
  - by rewrite (occurs_at_start_app _ _ b H).
  - done.
  - by rewrite (occurs_at_start_app _ _ b H).
  - rewrite app_cons_string, (IH H). apply orb_true_r.
Qed.

(** A replaced text holds whatever the replacement holds. *)
Lemma replace_includes s pat rep n :
  includes s pat = true -> includes rep n = true ->
  includes (replace s pat rep) n = true.
Proof.
  intros Hs Hr. induction s as [|c s IH]; simpl in *.
  - rewrite orb_false_r in Hs. rewrite Hs. by apply includes_app_l.
  - destruct (occurs_at_start pat (String c s)) eqn:Hp.
    + by apply includes_app_l.
    + rewrite includes_unfold. rewrite (IH Hs). apply orb_true_r.
Qed.

(** [replace] rewrites the first occurrence and nothing else: the text
    splits around an occurrence of the pattern before which no other
    occurrence starts, and only that occurrence is exchanged. *)
Lemma replace_first s pat rep :
  includes s pat = true ->
  ∃ pre post,
    s = pre +:+ pat +:+ post
    ∧ replace s pat rep = pre +:+ rep +:+ post
    ∧ ∀ i, (i < String.length pre)%nat -> occurs_at_start pat (skip i s) = false.
Proof.
  induction s as [|c s IH]; simpl; intros Hs.
  - rewrite orb_false_r in Hs. rewrite Hs.
    exists EmptyString, (skip (String.length pat) EmptyString).
    split; [by apply occurs_at_start_skip|]. split; [done|].
      intros i Hi. destruct (Nat.nlt_0_r i Hi).
  - destruct (occurs_at_start pat (String c s)) eqn:Hp.
    + exists EmptyString, (skip (String.length pat) (String c s)).
      split; [by apply occurs_at_start_skip|]. split; [done|].
      intros i Hi. destruct (Nat.nlt_0_r i Hi).
    + destruct (IH Hs) as (pre & post & E1 & E2 & Hfirst).
      exists (String c pre), post. rewrite !app_cons_string, E2, <- E1.
      split; [done|]. split; [done|].
      intros [|i] Hi; simpl; [done|]. apply Hfirst.
      apply Nat.succ_lt_mono. exact Hi.
Qed.

Lemma patchedLine_marked : includes patchedLine "api-access-token" = true.
Proof. reflexivity. Qed.

End Strings.

Section MoreStrings.

Import SdkPatchScript.

Lemma length_app_string (a b : string) :
  String.length (a +:+ b) = (String.length a + String.length b)%nat.
Proof.
  induction a as [|c a IH]; [done|].
  rewrite app_cons_string. simpl. by rewrite IH.
Qed.

Lemma app_assoc_string (a b c : string) : (a +:+ b) +:+ c = a +:+ b +:+ c.
Proof.
  induction a as [|x a IH]; [done|].
  rewrite !app_cons_string. by rewrite IH.
Qed.

Lemma skip_app (n : nat) (x b : string) :
  (n ≤ String.length x)%nat -> skip n (x +:+ b) = skip n x +:+ b.
Proof.
  revert x. induction n as [|n IH]; intros x Hn.
  - by destruct x.
  - destruct x as [|c x]; simpl in Hn; [lia|].
    rewrite app_cons_string. simpl. apply IH. lia.
Qed.

Lemma skip_all (x : string) : skip (String.length x) x = EmptyString.
Proof. induction x as [|c x IH]; [done|]. exact IH. Qed.

Lemma occurs_at_start_self p b : occurs_at_start p (p +:+ b) = true.
Proof.
  induction p as [|c p IH]; [done|].
  rewrite app_cons_string. simpl. by rewrite Ascii.eqb_refl, IH.
Qed.

Lemma includes_app_r a b n :
  includes b n = true -> includes (a +:+ b) n = true.
Proof.
  intros H. induction a as [|c a IH]; [done|].
  rewrite app_cons_string, includes_unfold, IH. apply orb_true_r.
Qed.

Lemma replace_unfold s pat rep :
  replace s pat rep =
    if occurs_at_start pat s then rep +:+ skip (String.length pat) s
    else match s with
         | EmptyString => EmptyString
         | String c s' => String c (replace s' pat rep)
         end.
Proof. by destruct s. Qed.

Lemma occurs_at_start_length p s :
  occurs_at_start p s = true ->
  String.length s = (String.length p + String.length (skip (String.length p) s))%nat.
Proof.
  intros Hp. rewrite (occurs_at_start_skip _ _ Hp) at 1.
  apply length_app_string.
Qed.

(** The length of a text does not change when an occurrence is exchanged
    for a replacement of the pattern's length. *)
Lemma replace_length s pat rep :
  String.length rep = String.length pat ->
  String.length (replace s pat rep) = String.length s.
Proof.
  intros Hlen. induction s as [|c s IH]; rewrite replace_unfold.
  - destruct (occurs_at_start pat EmptyString) eqn:Hp; [|done].
    by rewrite length_app_string, Hlen, (occurs_at_start_length _ _ Hp).
  - destruct (occurs_at_start pat (String c s)) eqn:Hp.
    + by rewrite length_app_string, Hlen, (occurs_at_start_length _ _ Hp).
    + simpl. by rewrite IH.
Qed.

(** An occurrence of the pattern that starts after another one survives
    the replacement. *)
Lemma replace_keeps_later a b pat rep :
  includes b pat = true ->
  includes (replace (a +:+ pat +:+ b) pat rep) pat = true.
Proof.
  intros Hb. induction a as [|c a IH].
  - rewrite app_nil_string.
    assert (E : replace (pat +:+ b) pat rep = rep +:+ b).
    { rewrite replace_unfold, occurs_at_start_self.
      by rewrite (skip_app _ pat b), skip_all. }
    rewrite E. by apply includes_app_r.
  - rewrite app_cons_string, replace_unfold.
    destruct (occurs_at_start pat (String c (a +:+ pat +:+ b))) eqn:Hp.
    + apply includes_app_r.
      rewrite <- app_cons_string, <- app_assoc_string.
      rewrite skip_app.
      * by apply includes_app_r.
      * rewrite length_app_string. lia.
    + rewrite includes_unfold, IH. apply orb_true_r.
Qed.

End MoreStrings.

Section Truncation.

Import SdkPatchScript.

Lemma app_nil_r_string (a : string) : a +:+ EmptyString = a.
Proof. induction a as [|c a IH]; [done|]. by rewrite app_cons_string, IH. Qed.

Lemma first_unfold n s :
  first n s =
    match n, s with
    | S n', String c s' => String c (first n' s')
    | _, _ => EmptyString
    end.
Proof. by destruct n. Qed.

Lemma first_skip n s : first n s +:+ skip n s = s.
Proof.
  revert s. induction n as [|n IH]; intros [|c s]; try done.
  simpl. rewrite app_cons_string. by rewrite IH.
Qed.

Lemma first_app_le n (a b : string) :
  (n ≤ String.length a)%nat -> first n (a +:+ b) = first n a.
Proof.
  revert a. induction n as [|n IH]; intros [|c a] Hn; try done.
  - simpl in Hn. lia.
  - rewrite app_cons_string. simpl. rewrite IH; [done|]. simpl in Hn. lia.
Qed.

Lemma first_app_ge n (a b : string) :
  (String.length a ≤ n)%nat ->
  first n (a +:+ b) = a +:+ first (n - String.length a) b.
Proof.
  revert n. induction a as [|c a IH]; intros n Hn.
  - rewrite !app_nil_string. simpl. by rewrite Nat.sub_0_r.
  - destruct n as [|n]; simpl in Hn; [lia|].
    rewrite !app_cons_string. simpl. rewrite IH; [done|lia].
Qed.

Lemma first_all n s : (String.length s ≤ n)%nat -> first n s = s.
Proof.
  revert s. induction n as [|n IH]; intros [|c s] Hn; try done.
  - simpl in Hn. lia.
  - simpl. rewrite IH; [done|]. simpl in Hn. lia.
Qed.

Lemma skip_beyond n s : (String.length s ≤ n)%nat -> skip n s = EmptyString.
Proof.
  revert s. induction n as [|n IH]; intros [|c s] Hn; try done.
  - simpl in Hn. lia.
  - simpl. apply IH. simpl in Hn. lia.
Qed.

(** The suffix one character further on. *)
Lemma skip_step i s b p : skip i s = String b p -> skip (S i) s = p.
Proof.
  revert s. induction i as [|i IH]; intros [|c s] H; try done.
  - simpl in H. by injection H as _ ->.
  - simpl in *. by apply IH.
Qed.

Lemma length_first_le n s : (String.length (first n s) ≤ n)%nat.
Proof.
  revert s. induction n as [|n IH]; intros [|c s]; simpl; try lia.
  specialize (IH s). lia.
Qed.

Lemma occurs_at_start_empty p : occurs_at_start p EmptyString = true -> p = EmptyString.
Proof. by destruct p. Qed.

Section NoOccurrence.

(** [t] stands where the original line stood, [x] is what the text had
    from there on: every end of the original line that [t] starts with,
    [x] starts with too, and [t] holds no original line of its own. *)
Variables t x : string.

Hypothesis ends_carry_over :
  ∀ i, occurs_at_start (skip i originalLine) t = true ->
       occurs_at_start (skip i originalLine) x = true.

Hypothesis none_inside : includes t originalLine = false.

Lemma occurrence_carries_over s i :
  occurs_at_start (skip i originalLine) (s +:+ t) = true ->
  occurs_at_start (skip i originalLine) (s +:+ x) = true.
Proof.
  revert i. induction s as [|a s IH]; intros i; [apply ends_carry_over|].
  rewrite !app_cons_string.
  destruct (skip i originalLine) as [|b p] eqn:Ep; [done|].
  simpl. intros [-> Hp]%andb_true_iff. simpl.
  rewrite <- (skip_step _ _ _ _ Ep) in Hp |- *. by apply IH.
Qed.

Lemma no_occurrence pre :
  (∀ i, (i < String.length pre)%nat ->
        occurs_at_start originalLine (skip i (pre +:+ x)) = false) ->
  includes (pre +:+ t) originalLine = false.
Proof.
  induction pre as [|a pre IH]; intros Hfirst; [exact none_inside|].
  rewrite app_cons_string, includes_unfold. apply orb_false_iff. split.
  - destruct (occurs_at_start originalLine (String a (pre +:+ t))) eqn:Ho; [|done].
    rewrite <- app_cons_string in Ho.
    apply (occurrence_carries_over _ 0) in Ho.
    rewrite <- (Hfirst 0%nat); [done|]. simpl. lia.
  - apply IH. intros i Hi. apply (Hfirst (S i)). simpl. lia.
Qed.

End NoOccurrence.

Lemma line_length : String.length originalLine = 36%nat.
Proof. reflexivity. Qed.

(** A beginning of the patched line starts with no end of the original
    line that the original line does not start with itself, and holds no
    original line. *)
Lemma patched_beginnings :
  forallb (fun i =>
    forallb (fun m =>
      implb (occurs_at_start (skip i originalLine) (first m patchedLine))
            (occurs_at_start (skip i originalLine) originalLine)
      && negb (includes (first m patchedLine) originalLine))
      (seq 0 36))
    (seq 0 36) = true.
Proof. by vm_compute. Qed.

Lemma patched_beginnings_at i m :
  (i < 36)%nat -> (m < 36)%nat ->
  implb (occurs_at_start (skip i originalLine) (first m patchedLine))
        (occurs_at_start (skip i originalLine) originalLine) = true
  ∧ negb (includes (first m patchedLine) originalLine) = true.
Proof.
  intros Hi Hm.
  assert (Hin : ∀ n, (n < 36)%nat -> In n (seq 0 36)) by (intros n Hn; apply in_seq; lia).
  pose proof (proj1 (forallb_forall _ _) patched_beginnings i (Hin i Hi)) as T.
  pose proof (proj1 (forallb_forall _ _) T m (Hin m Hm)) as T'.
  by apply andb_true_iff in T'.
Qed.

Lemma patched_beginning_ends m post i :
  (m < 36)%nat ->
  occurs_at_start (skip i originalLine) (first m patchedLine) = true ->
  occurs_at_start (skip i originalLine) (originalLine +:+ post) = true.
Proof.
  intros Hm Ho. destruct (decide (i < 36)%nat) as [Hi|Hi].
  - apply occurs_at_start_app.
    destruct (patched_beginnings_at i m Hi Hm) as [T _]. by rewrite Ho in T.
  - rewrite skip_beyond; [done|]. rewrite line_length. lia.
Qed.

Lemma patched_beginning_none m :
  (m < 36)%nat -> includes (first m patchedLine) originalLine = false.
Proof.
  intros Hm. destruct (patched_beginnings_at 0 m) as [_ T]; [lia|done|].
  by apply negb_true_iff in T.
Qed.

(** What a failed write leaves of the patched text either holds the
    marker or holds no original line: a later run does not patch it. *)
Lemma truncated_not_repatched content kept :
  includes content originalLine = true ->
  includes (first kept (replace content originalLine patchedLine))
           "api-access-token" = true
  ∨ includes (first kept (replace content originalLine patchedLine))
             originalLine = false.
Proof.
  intros Hl.
  destruct (replace_first content originalLine patchedLine Hl)
    as (pre & post & E1 & E2 & Hfirst).
  rewrite E2.
  destruct (decide (String.length pre + 36 ≤ kept)%nat) as [Hk|Hk].
  - left. rewrite <- app_assoc_string, first_app_ge.
    + apply includes_app_l, includes_app_r. reflexivity.
    + rewrite length_app_string. change (String.length patchedLine) with 36%nat. lia.
  - right. destruct (decide (String.length pre ≤ kept)%nat) as [Hp|Hp].
    + rewrite first_app_ge by done.
      rewrite first_app_le by (change (String.length patchedLine) with 36%nat; lia).
      apply (no_occurrence _ (originalLine +:+ post)).
      * intros i. apply patched_beginning_ends. lia.
      * apply patched_beginning_none. lia.
      * intros i Hi. rewrite <- E1. by apply Hfirst.
    + rewrite first_app_le by lia.
      rewrite <- (app_nil_r_string (first kept pre)).
      apply (no_occurrence _ (skip kept pre +:+ originalLine +:+ post)).
      * intros i Ho. by rewrite (occurs_at_start_empty _ Ho).
      * reflexivity.
      * intros i Hi. rewrite <- app_assoc_string, first_skip, <- E1.
        apply Hfirst. pose proof (length_first_le kept pre). lia.
Qed.

End Truncation.

Section Script.

Import SdkPatchScript.

Variable SDK_REQUEST_FILE : string.

(** What a run does to the file, by cases on what it finds. *)
Lemma run_outcome disk :
  (file_after SDK_REQUEST_FILE disk, written SDK_REQUEST_FILE disk) =
    match disk with
    | Present content None write_error =>
        if includes content "api-access-token" then (disk, [])
        else if includes content originalLine then
          let content' := replace content originalLine patchedLine in
          match write_error with
          | None => (Present content' None None, [content'])
          | Some (FailsAtOpen _) => (disk, [])
          | Some (FailsAfterOpen _ kept) =>
              (Present (first kept content') None write_error, [])
          end
        else (disk, [])
    | _ => (disk, [])
    end.
Proof.
  destruct disk as [|content [e|] [[m|m kept]|]]; try reflexivity;
    unfold file_after, written, run;
    destruct (includes content "api-access-token");
    destruct (includes content originalLine); reflexivity.
Qed.

Lemma file_after_outcome disk :
  file_after SDK_REQUEST_FILE disk = fst (
    match disk with
    | Present content None write_error =>
        if includes content "api-access-token" then (disk, [])
        else if includes content originalLine then
          let content' := replace content originalLine patchedLine in
          match write_error with
          | None => (Present content' None None, [content'])
          | Some (FailsAtOpen _) => (disk, [])
          | Some (FailsAfterOpen _ kept) =>
              (Present (first kept content') None write_error, [])
          end
        else (disk, [])
    | _ => (disk, [])
    end).
Proof. by rewrite <- run_outcome. Qed.

Lemma written_outcome disk :
  written SDK_REQUEST_FILE disk = snd (
    match disk with
    | Present content None write_error =>
        if includes content "api-access-token" then (disk, [])
        else if includes content originalLine then
          let content' := replace content originalLine patchedLine in
          match write_error with
          | None => (Present content' None None, [content'])
          | Some (FailsAtOpen _) => (disk, [])
          | Some (FailsAfterOpen _ kept) =>
              (Present (first kept content') None write_error, [])
          end
        else (disk, [])
    | _ => (disk, [])
    end).
Proof. by rewrite <- run_outcome. Qed.

(** A file the script has written carries the marker. *)
Lemma patched_content_marked content :
  includes content originalLine = true ->
  includes (replace content originalLine patchedLine) "api-access-token" = true.
Proof. intros H. apply (replace_includes _ _ _ _ H). reflexivity. Qed.

(** A run on a file that carries the marker changes and writes nothing. *)
Lemma run_marked content read_error write_error :
  includes content "api-access-token" = true ->
  file_after SDK_REQUEST_FILE (Present content read_error write_error)
    = Present content read_error write_error
  ∧ written SDK_REQUEST_FILE (Present content read_error write_error) = [].
Proof.
  intros H. rewrite file_after_outcome, written_outcome.
  destruct read_error; rewrite ?H; done.
Qed.

(** A run on a text that carries the marker or holds no original line
    changes and writes nothing. *)
Lemma run_settled content read_error write_error :
  includes content "api-access-token" = true
  ∨ includes content originalLine = false ->
  file_after SDK_REQUEST_FILE (Present content read_error write_error)
    = Present content read_error write_error
  ∧ written SDK_REQUEST_FILE (Present content read_error write_error) = [].
Proof.
  intros [H|H]; [by apply run_marked|].
  rewrite file_after_outcome, written_outcome.
  destruct read_error; [done|].
  destruct (includes content "api-access-token"); [done|]. by rewrite H.
Qed.

(** After a run, a further run changes and writes nothing. *)
Lemma second_run disk :
  written SDK_REQUEST_FILE (file_after SDK_REQUEST_FILE disk) = []
  ∧ file_after SDK_REQUEST_FILE (file_after SDK_REQUEST_FILE disk)
    = file_after SDK_REQUEST_FILE disk.
Proof.
  assert (Hsettled : ∀ content read_error write_error,
            includes content "api-access-token" = true
            ∨ includes content originalLine = false ->
            file_after SDK_REQUEST_FILE disk
              = Present content read_error write_error ->
            written SDK_REQUEST_FILE (file_after SDK_REQUEST_FILE disk) = []
            ∧ file_after SDK_REQUEST_FILE (file_after SDK_REQUEST_FILE disk)
              = file_after SDK_REQUEST_FILE disk).
  { intros content read_error write_error H E. rewrite E.
    destruct (run_settled content read_error write_error H) as [E1 E2].
    by rewrite E1, E2. }
  destruct disk as [|content [e|] write_error]; [done|done|].
  destruct (includes content "api-access-token") eqn:Hm.
  { apply (Hsettled content None write_error); [by left|].
    by apply run_marked. }
  destruct (includes content originalLine) eqn:Hl.
  - destruct write_error as [[m|m kept]|].
    + assert (E : file_after SDK_REQUEST_FILE
                    (Present content None (Some (FailsAtOpen m)))
                  = Present content None (Some (FailsAtOpen m)))
        by by rewrite file_after_outcome, Hm, Hl.
      rewrite !E. split; [|done]. by rewrite written_outcome, Hm, Hl.
    + apply (Hsettled (first kept (replace content originalLine patchedLine))
               None (Some (FailsAfterOpen m kept))).
      * by apply truncated_not_repatched.
      * by rewrite file_after_outcome, Hm, Hl.
    + apply (Hsettled (replace content originalLine patchedLine) None None).
      * left. by apply patched_content_marked.
      * by rewrite file_after_outcome, Hm, Hl.
  - apply (Hsettled content None write_error); [by right|].
    by apply run_settled; right.
Qed.

End Script.

(** C10. Running the script on the SDK file: when the text already holds
    [api-access-token] the run writes nothing and leaves the file as it
    is; otherwise, when the text holds the original line (and the file can
    be read and written), the run writes the text with the first
    occurrence of that line, and no other, exchanged for the hyphenated
    line, and exits with 0. A second run then writes nothing, and running
    the script twice leaves the file that one run leaves. *)
Theorem sdk_patch_idempotent (SDK_REQUEST_FILE : string) (disk : SdkPatchScript.file) :
  (∀ content read_error write_error,
     disk = SdkPatchScript.Present content read_error write_error ->
     SdkPatchScript.includes content "api-access-token" = true ->
     SdkPatchScript.written SDK_REQUEST_FILE disk = []
     ∧ SdkPatchScript.file_after SDK_REQUEST_FILE disk = disk)
  ∧ (∀ content,
       disk = SdkPatchScript.Present content None None ->
       SdkPatchScript.includes content "api-access-token" = false ->
       SdkPatchScript.includes content SdkPatchScript.originalLine = true ->
       ∃ pre post,
         content = pre +:+ SdkPatchScript.originalLine +:+ post
         ∧ (∀ i, (i < String.length pre)%nat ->
                 SdkPatchScript.occurs_at_start SdkPatchScript.originalLine
                   (SdkPatchScript.skip i content) = false)
         ∧ SdkPatchScript.written SDK_REQUEST_FILE disk =
             [pre +:+ SdkPatchScript.patchedLine +:+ post]
         ∧ SdkPatchScript.file_after SDK_REQUEST_FILE disk =
             SdkPatchScript.Present
               (pre +:+ SdkPatchScript.patchedLine +:+ post) None None
         ∧ SdkPatchScript.exit_code SDK_REQUEST_FILE disk = 0%Z)
  ∧ SdkPatchScript.written SDK_REQUEST_FILE
      (SdkPatchScript.file_after SDK_REQUEST_FILE disk) = []
  ∧ SdkPatchScript.file_after SDK_REQUEST_FILE
      (SdkPatchScript.file_after SDK_REQUEST_FILE disk)
    = SdkPatchScript.file_after SDK_REQUEST_FILE disk.
Proof.
  split; [|split].
  - intros content re we -> H.
    destruct (run_marked SDK_REQUEST_FILE content re we H). by split.
  - intros content -> Hm Hl.
    destruct (replace_first content SdkPatchScript.originalLine
                SdkPatchScript.patchedLine Hl) as (pre & post & E1 & E2 & Hfirst).
    exists pre, post. split; [done|]. split; [done|].
    rewrite written_outcome, file_after_outcome, Hm, Hl. simpl. rewrite E2.
    split; [done|]. split; [done|].
    unfold SdkPatchScript.exit_code, SdkPatchScript.run. by rewrite Hm, Hl.
  - apply second_run.
Qed.

Lemma sdk_patch_idempotent_witness :
  let content :=
    "if (token) { " +:+ SdkPatchScript.originalLine +:+ " } " +:+
    SdkPatchScript.originalLine in
  let disk := SdkPatchScript.Present content None None in
  SdkPatchScript.includes content "api-access-token" = false
  ∧ SdkPatchScript.includes content SdkPatchScript.originalLine = true
  ∧ SdkPatchScript.file_after "request.js" disk =
      SdkPatchScript.Present
        ("if (token) { " +:+ SdkPatchScript.patchedLine +:+ " } " +:+
         SdkPatchScript.originalLine) None None
  ∧ ∃ pre post,
      content = pre +:+ SdkPatchScript.originalLine +:+ post
      ∧ SdkPatchScript.written "request.js" disk =
          [pre +:+ SdkPatchScript.patchedLine +:+ post].
Proof.
  intros content disk. split; [reflexivity|]. split; [reflexivity|].
  split; [reflexivity|].
  destruct (proj1 (proj2 (sdk_patch_idempotent "request.js" disk)) content)
    as (pre & post & E & _ & W & _); [reflexivity | reflexivity | reflexivity |].
  exists pre, post. split; [exact E | exact W].
Defined.


(** * Further properties of the post-install script *)


Section MoreScript.

Import SdkPatchScript.

Variable SDK_REQUEST_FILE : string.

Lemma exit_code_outcome disk :
  exit_code SDK_REQUEST_FILE disk =
    match disk with
    | Missing => 0%Z
    | Present _ (Some _) _ => 1%Z
    | Present content None write_error =>
        if includes content "api-access-token" then 0%Z
        else if includes content originalLine then
          match write_error with Some _ => 1%Z | None => 0%Z end
        else 1%Z
    end.
Proof.
  destruct disk as [|content [e|] [[m|m kept]|]]; try reflexivity;
    unfold exit_code, run;
    destruct (includes content "api-access-token");
    destruct (includes content originalLine); reflexivity.
Qed.

Lemma lines_same_length : String.length patchedLine = String.length originalLine.
Proof. reflexivity. Qed.

(** A text that holds the original line and either carries the marker
    or holds a second original line after the first stays such a text
    through a run, unless writing fails after the file was opened. *)
Lemma file_after_keeps_line content read_error write_error :
  (∀ message kept, write_error ≠ Some (FailsAfterOpen message kept)) ->
  includes content originalLine = true ->
  (includes content "api-access-token" = true
   ∨ ∃ a b, content = a +:+ originalLine +:+ b ∧ includes b originalLine = true) ->
  ∃ content',
    file_after SDK_REQUEST_FILE (Present content read_error write_error)
      = Present content' read_error write_error
    ∧ includes content' originalLine = true
    ∧ (includes content' "api-access-token" = true
       ∨ ∃ a b, content' = a +:+ originalLine +:+ b ∧ includes b originalLine = true).
Proof.
  intros Hw Hl Hcase. rewrite file_after_outcome.
  destruct (includes content "api-access-token") eqn:Hm.
  - exists content. by destruct read_error; rewrite ?Hm.
  - destruct Hcase as [|(a & b & -> & Hb)]; [done|].
    destruct read_error as [e|]; simpl.
    { eexists. split; [reflexivity|]. split; [done|]. right. by exists a, b. }
    rewrite Hl.
    destruct write_error as [[m|m kept]|]; simpl.
    + eexists. split; [reflexivity|]. split; [done|]. right. by exists a, b.
    + by destruct (Hw m kept).
    + eexists. split; [reflexivity|]. split.
      * by apply replace_keeps_later.
      * left. by apply patched_content_marked.
Qed.

Lemma runs_keep_line n content read_error write_error :
  (∀ message kept, write_error ≠ Some (FailsAfterOpen message kept)) ->
  includes content originalLine = true ->
  (includes content "api-access-token" = true
   ∨ ∃ a b, content = a +:+ originalLine +:+ b ∧ includes b originalLine = true) ->
  ∃ content',
    PostInstall.runs n SDK_REQUEST_FILE (Present content read_error write_error)
      = Present content' read_error write_error
    ∧ includes content' originalLine = true.
Proof.
  intros Hw. revert content. induction n as [|n IH]; intros content Hl Hcase.
  - by exists content.
  - destruct (file_after_keeps_line content read_error write_error Hw Hl Hcase)
      as (c1 & E & Hl1 & Hcase1).
    simpl. rewrite E. by apply IH.
Qed.

End MoreScript.

(** X1. What the exit code of the script tells: after a run that exits
    with 0 the SDK file is missing or its text holds [api-access-token].
    A run that does not exit with 0 exits with 1, found the file there and
    completed no write; it left the file as it was, except when writing
    failed after the file was opened: then the file holds what the failed
    write left, a beginning of the patched text. *)
Theorem exit_code_meaning (SDK_REQUEST_FILE : string) (disk : SdkPatchScript.file) :
  (SdkPatchScript.exit_code SDK_REQUEST_FILE disk = 0%Z ->
   SdkPatchScript.file_after SDK_REQUEST_FILE disk = SdkPatchScript.Missing
   ∨ ∃ content read_error write_error,
       SdkPatchScript.file_after SDK_REQUEST_FILE disk
         = SdkPatchScript.Present content read_error write_error
       ∧ SdkPatchScript.includes content "api-access-token" = true)
  ∧ (SdkPatchScript.exit_code SDK_REQUEST_FILE disk ≠ 0%Z ->
     SdkPatchScript.exit_code SDK_REQUEST_FILE disk = 1%Z
     ∧ disk ≠ SdkPatchScript.Missing
     ∧ SdkPatchScript.written SDK_REQUEST_FILE disk = []
     ∧ (SdkPatchScript.file_after SDK_REQUEST_FILE disk = disk
        ∨ ∃ content message kept,
            disk = SdkPatchScript.Present content None
                     (Some (SdkPatchScript.FailsAfterOpen message kept))
            ∧ SdkPatchScript.includes content "api-access-token" = false
            ∧ SdkPatchScript.includes content SdkPatchScript.originalLine = true
            ∧ SdkPatchScript.file_after SDK_REQUEST_FILE disk
              = SdkPatchScript.Present
                  (SdkPatchScript.first kept
                     (SdkPatchScript.replace content SdkPatchScript.originalLine
                        SdkPatchScript.patchedLine))
                  None (Some (SdkPatchScript.FailsAfterOpen message kept)))).
Proof.
  rewrite exit_code_outcome, file_after_outcome, written_outcome.
  destruct disk as [|content [e|] write_error]; simpl.
  - split; [by left|done].
  - split; [done|]. intros _. repeat split; try done. by left.
  - destruct (SdkPatchScript.includes content "api-access-token") eqn:Hm; simpl.
    { split; [|done]. intros _. right. by eexists _, _, _. }
    destruct (SdkPatchScript.includes content SdkPatchScript.originalLine) eqn:Hl;
      simpl.
    + destruct write_error as [[m|m kept]|]; simpl.
      * split; [done|]. intros _. repeat split; try done. by left.
      * split; [done|]. intros _. repeat split; try done.
        right. by exists content, m, kept.
      * split; [|done]. intros _. right. eexists _, _, _. split; [done|].
        by apply patched_content_marked.
    + split; [done|]. intros _. repeat split; try done. by left.
Qed.

Lemma exit_code_meaning_witness :
  let disk := SdkPatchScript.Present
                ("x = 1; " +:+ SdkPatchScript.originalLine) None None in
  let gone := SdkPatchScript.Present "module.exports = request;" None None in
  let full := SdkPatchScript.Present
                ("x = 1; " +:+ SdkPatchScript.originalLine) None
                (Some (SdkPatchScript.FailsAfterOpen "ENOSPC" 0)) in
  SdkPatchScript.exit_code "request.js" disk = 0%Z
  ∧ SdkPatchScript.exit_code "request.js" gone = 1%Z
  ∧ SdkPatchScript.exit_code "request.js" full = 1%Z
  ∧ SdkPatchScript.written "request.js" gone = []
  ∧ SdkPatchScript.written "request.js" full = []
  ∧ SdkPatchScript.file_after "request.js" full
    = SdkPatchScript.Present EmptyString None
        (Some (SdkPatchScript.FailsAfterOpen "ENOSPC" 0))
  ∧ (SdkPatchScript.file_after "request.js" disk = SdkPatchScript.Missing
     ∨ ∃ content read_error write_error,
         SdkPatchScript.file_after "request.js" disk
           = SdkPatchScript.Present content read_error write_error
         ∧ SdkPatchScript.includes content "api-access-token" = true).
Proof.
  intros disk gone full.
  split; [reflexivity|]. split; [reflexivity|]. split; [reflexivity|].
  split; [|split; [|split]].
  - apply (proj2 (exit_code_meaning "request.js" gone)). by vm_compute.
  - apply (proj2 (exit_code_meaning "request.js" full)). by vm_compute.
  - reflexivity.
  - apply (proj1 (exit_code_meaning "request.js" disk)). reflexivity.
Defined.

(** X2. A run writes the file at most once. When it writes, it exits with
    0, the file it found was readable and writable and its text did not
    hold [api-access-token]; the text written is what the file holds
    afterwards, holds [api-access-token], and is exactly as long as the
    text that was read. *)
Theorem write_discipline (SDK_REQUEST_FILE : string) (disk : SdkPatchScript.file)
    (content' : string) :
  content' ∈ SdkPatchScript.written SDK_REQUEST_FILE disk ->
  SdkPatchScript.written SDK_REQUEST_FILE disk = [content']
  ∧ SdkPatchScript.exit_code SDK_REQUEST_FILE disk = 0%Z
  ∧ SdkPatchScript.file_after SDK_REQUEST_FILE disk
      = SdkPatchScript.Present content' None None
  ∧ SdkPatchScript.includes content' "api-access-token" = true
  ∧ ∃ content,
      disk = SdkPatchScript.Present content None None
      ∧ SdkPatchScript.includes content "api-access-token" = false
      ∧ String.length content' = String.length content.
Proof.
  rewrite exit_code_outcome, file_after_outcome, written_outcome.
  destruct disk as [|content [e|] write_error]; simpl; try by intros ?%elem_of_nil.
  destruct (SdkPatchScript.includes content "api-access-token") eqn:Hm;
    simpl; [by intros ?%elem_of_nil|].
  destruct (SdkPatchScript.includes content SdkPatchScript.originalLine) eqn:Hl;
    simpl; [|by intros ?%elem_of_nil].
  destruct write_error as [[m|m kept]|]; simpl; try by intros ?%elem_of_nil.
  intros ->%list_elem_of_singleton.
  split; [done|]. split; [done|]. split; [done|]. split.
  - by apply patched_content_marked.
  - exists content. split; [done|]. split; [done|].
    apply replace_length, lines_same_length.
Qed.

Lemma write_discipline_witness :
  let content := "a; " +:+ SdkPatchScript.originalLine +:+ " b;" in
  let content' := "a; " +:+ SdkPatchScript.patchedLine +:+ " b;" in
  let disk := SdkPatchScript.Present content None None in
  content' ∈ SdkPatchScript.written "request.js" disk
  ∧ SdkPatchScript.written "request.js" disk = [content']
  ∧ SdkPatchScript.exit_code "request.js" disk = 0%Z.
Proof.
  intros content content' disk.
  assert (H : content' ∈ SdkPatchScript.written "request.js" disk).
  { vm_compute. apply list_elem_of_here. }
  split; [exact H|].
  destruct (write_discipline "request.js" disk content' H) as (W & E & _).
  split; [exact W | exact E].
Defined.

(** X3. The script never gets to a second original line: when the text
    holds the line twice, one after the other, the file still holds an
    original line after any number of runs, whether or not the file can
    be read or opened for writing, as long as no write fails after the
    file was opened (such a write leaves a truncated file). *)
Theorem later_line_never_patched (SDK_REQUEST_FILE : string) (a b : string)
    (read_error : option string)
    (write_error : option SdkPatchScript.write_failure) (n : nat) :
  (∀ message kept,
     write_error ≠ Some (SdkPatchScript.FailsAfterOpen message kept)) ->
  SdkPatchScript.includes b SdkPatchScript.originalLine = true ->
  ∃ content',
    PostInstall.runs n SDK_REQUEST_FILE
      (SdkPatchScript.Present (a +:+ SdkPatchScript.originalLine +:+ b)
         read_error write_error)
    = SdkPatchScript.Present content' read_error write_error
    ∧ SdkPatchScript.includes content' SdkPatchScript.originalLine = true.
Proof.
  intros Hw Hb. apply runs_keep_line; [exact Hw| |].
  - apply includes_app_r. rewrite includes_unfold.
    by rewrite occurs_at_start_self.
  - right. by exists a, b.
Qed.

Lemma later_line_never_patched_witness :
  let b := " else " +:+ SdkPatchScript.originalLine in
  SdkPatchScript.includes b SdkPatchScript.originalLine = true
  ∧ ∃ content',
      PostInstall.runs 3 "request.js"
        (SdkPatchScript.Present
           ("if (x) " +:+ SdkPatchScript.originalLine +:+ b) None None)
      = SdkPatchScript.Present content' None None
      ∧ SdkPatchScript.includes content' SdkPatchScript.originalLine = true.
Proof.
  intros b. split; [reflexivity|].
  apply (later_line_never_patched "request.js" "if (x) " b None None 3).
  - intros message kept H. discriminate H.
  - reflexivity.
Defined.

(** * Further properties of the global patch *)

Lemma result_bind {A B} (m : Traced A) (k : A -> Traced B) :
  result (m ≫= k) = result (k (result m)).
Proof.
  destruct m as [a l1]. unfold mbind, Traced_bind, result. simpl.
  by destruct (k a).
Qed.

Section MoreGlobalWrapper.

Import PatchAxios.

(** Both closures hand on the same config. *)
Lemma rewrite_result_proto p q config :
  result (rewrite p config) = result (rewrite q config).
Proof.
  destruct config as [d|]; [|done]. unfold rewrite.
  destruct (headers d) as [h|]; [|done].
  destruct (truthy (js_get h api_access_token)); [|done].
  by destruct p, q.
Qed.

Lemma rewrite_result_cases p d :
  result (rewrite p (Some d)) = Some d
  ∨ ∃ h, headers d = Some h
         ∧ truthy (js_get h api_access_token) = true
         ∧ result (rewrite p (Some d)) =
             Some (with_headers d
                     (<[api_access_token_hyphen := js_get h api_access_token]>
                        (delete api_access_token h))).
Proof.
  destruct (headers d) as [h|] eqn:Hh.
  - destruct (truthy (js_get h api_access_token)) eqn:Ht.
    + right. exists h. split; [done|]. split; [done|]. by apply rewrite_truthy.
    + left. by rewrite (rewrite_falsy p d h Hh Ht).
  - left. by rewrite (rewrite_no_headers p d Hh).
Qed.

(** A config a closure has handed on goes through a closure unchanged. *)
Lemma rewrite_result_idem p q config :
  result (rewrite p (result (rewrite q config))) = result (rewrite q config).
Proof.
  destruct config as [d|]; [|done].
  destruct (rewrite_result_cases q d) as [E | (h & Hh & Ht & E)]; rewrite E.
  - by rewrite (rewrite_result_proto p q), E.
  - destruct (renamed_lookups h (js_get h api_access_token)) as [Hu _].
    erewrite rewrite_falsy; [done|reflexivity|].
    by rewrite (js_get_None _ _ Hu).
Qed.

Lemma call_result f config :
  result (call f config) =
    match layers f with
    | O => config
    | S _ => result (rewrite false config)
    end.
Proof.
  revert config. induction f as [|p f IH]; intros config; [done|].
  simpl. rewrite result_bind, IH.
  destruct (layers f).
  - apply rewrite_result_proto.
  - rewrite rewrite_result_idem. apply rewrite_result_proto.
Qed.

(** When the underscore value is truthy, closure and interceptor agree. *)
Lemma rewrite_truthy_normalize p d h :
  headers d = Some h -> truthy (js_get h api_access_token) = true ->
  result (rewrite p (Some d)) = Some (normalize d).
Proof.
  intros Hh Ht. rewrite (rewrite_truthy p d h Hh Ht).
  rewrite (normalize_truthy d h Hh); by rewrite (js_or_truthy_l _ _ Ht).
Qed.

End MoreGlobalWrapper.

(** X4. However many rewriting closures are stacked in [axios.request],
    the config that reaches the library's own [request] is the one a
    single closure hands on; in particular a closure applied to its own
    output changes nothing. *)
Theorem stacked_closures_rewrite_once
    (f : PatchAxios.requestFn) (p : bool) (config : option descriptor) :
  PatchAxios.layers f ≠ 0%nat ->
  result (PatchAxios.call f config) = result (PatchAxios.rewrite p config)
  ∧ result (PatchAxios.rewrite p (result (PatchAxios.call f config)))
    = result (PatchAxios.call f config).
Proof.
  intros Hf. rewrite call_result.
  destruct (PatchAxios.layers f); [done|].
  split; [apply rewrite_result_proto|apply rewrite_result_idem].
Qed.

Lemma stacked_closures_rewrite_once_witness :
  let f := PatchAxios.Rewriting false
             (PatchAxios.Rewriting true
                (PatchAxios.Rewriting false PatchAxios.LibraryRequest)) in
  let d := mkDescriptor (Some {[ api_access_token := JStr "tok-123" ]})
                        (Some "/api/v1/accounts/1/contacts") None None in
  PatchAxios.layers f ≠ 0%nat
  ∧ result (PatchAxios.call f (Some d)) = result (PatchAxios.rewrite true (Some d)).
Proof.
  intros f d. split; [done|].
  apply (stacked_closures_rewrite_once f true (Some d)). done.
Defined.

(** X5. The closures of the global patch and the interceptor hand on the
    same descriptor, except in one case: a falsy value under
    [api_access_token] next to a truthy value under [api-access-token],
    where the interceptor drops the underscore key and the closure leaves
    it. *)
Theorem closure_agrees_with_interceptor (p : bool) (d : descriptor) :
  result (PatchAxios.rewrite p (Some d)) = Some (normalize d)
  ↔ ¬ (∃ v, header d api_access_token = Some v
            ∧ truthy v = false
            ∧ truthy (default JUndefined (header d api_access_token_hyphen)) = true).
Proof.
  destruct (headers d) as [h|] eqn:Hh.
  - destruct (truthy (js_get h api_access_token)) eqn:Ht.
    + split.
      * intros _ (v & Hv & Hf & _). rewrite (header_lookup d h _ Hh) in Hv.
        rewrite (js_get_Some _ _ _ Hv) in Ht. congruence.
      * intros _. by apply (rewrite_truthy_normalize p d h).
    + rewrite (rewrite_falsy p d h Hh Ht). simpl.
      destruct (truthy (js_get h api_access_token_hyphen)) eqn:Hy.
      * assert (Htok : truthy (js_or (js_get h api_access_token)
                                     (js_get h api_access_token_hyphen)) = true).
        { by rewrite (js_or_falsy_l _ _ Ht). }
        destruct (h !! api_access_token) as [v|] eqn:Hu.
        -- split.
           ++ intros E. injection E as E.
              assert (Hk : header d api_access_token = Some v)
                by by rewrite (header_lookup d h _ Hh).
              rewrite E, (normalize_truthy d h Hh Htok), header_with_headers in Hk.
              destruct (renamed_lookups h (js_or (js_get h api_access_token)
                          (js_get h api_access_token_hyphen))) as [Hgone _].
              congruence.
           ++ intros Hn. exfalso. apply Hn. exists v.
              rewrite !(header_lookup d h _ Hh). split; [done|].
              rewrite (js_get_Some _ _ _ Hu) in Ht. split; [done|].
              exact Hy.
        -- split.
           ++ intros _ (v & Hv & _). rewrite (header_lookup d h _ Hh) in Hv.
              congruence.
           ++ intros _. f_equal. symmetry.
              rewrite (normalize_truthy d h Hh Htok).
              rewrite (js_get_None _ _ Hu) at 1.
              change (js_or JUndefined (js_get h api_access_token_hyphen))
                with (js_get h api_access_token_hyphen).
              rewrite (delete_id h _ Hu).
              destruct (h !! api_access_token_hyphen) as [w|] eqn:Hw.
              ** rewrite (js_get_Some _ _ _ Hw), (insert_id h _ _ Hw).
                 by apply with_headers_same.
              ** by rewrite (js_get_None _ _ Hw) in Hy.
      * split.
        -- intros _ (v & _ & _ & Hv). rewrite (header_lookup d h _ Hh) in Hv.
           unfold js_get in Hy. congruence.
        -- intros _. f_equal. unfold normalize.
           rewrite (onRequest_falsy d h Hh); [done|].
           by rewrite (js_or_falsy_l _ _ Ht).
  - rewrite (rewrite_no_headers p d Hh). split.
    + intros _ (v & Hv & _). unfold header in Hv. by rewrite Hh in Hv.
    + intros _. unfold normalize. by rewrite (onRequest_no_headers d Hh).
Qed.

Lemma closure_agrees_with_interceptor_witness :
  let d := mkDescriptor
             (Some (<[ api_access_token := JStr EmptyString ]>
                      {[ api_access_token_hyphen := JStr "tok" ]}))
             None None None in
  let e := mkDescriptor (Some {[ api_access_token := JStr "tok" ]})
                        None None None in
  result (PatchAxios.rewrite false (Some d)) ≠ Some (normalize d)
  ∧ result (PatchAxios.rewrite false (Some e)) = Some (normalize e).
Proof.
  intros d e. split.
  - intros E. apply (proj1 (closure_agrees_with_interceptor false d) E).
    exists (JStr EmptyString). by vm_compute.
  - apply (proj2 (closure_agrees_with_interceptor false e)).
    intros (v & Hv & Hf & _). vm_compute in Hv. injection Hv as <-.
    vm_compute in Hf. discriminate.
Defined.

Lemma normalize_twice d : normalize (normalize d) = normalize d.
Proof.
  destruct (normalize_cases d) as [E | (h & Hh & Ht & E)].
  - by rewrite !E.
  - rewrite E. by apply normalize_renamed.
Qed.

(** What the interceptor hands on has no truthy underscore value. *)
Lemma normalize_no_truthy_underscore d h :
  headers (normalize d) = Some h -> truthy (js_get h api_access_token) = false.
Proof.
  intros Hn. destruct (truthy (js_get h api_access_token)) eqn:Ht; [|done].
  assert (Hgone : js_get h api_access_token = JUndefined).
  { destruct (normalize_cases d) as [E | (h0 & Hh & Htok & E)].
    - rewrite E in Hn.
      assert (Htok : truthy (js_or (js_get h api_access_token)
                                   (js_get h api_access_token_hyphen)) = true)
        by by rewrite (js_or_truthy_l _ _ Ht).
      pose proof (normalize_truthy d h Hn Htok) as E'.
      rewrite E in E'. rewrite E' in Hn. simpl in Hn. injection Hn as Hn.
      rewrite <- Hn at 1. apply js_get_None, renamed_lookups.
    - rewrite E in Hn. simpl in Hn. injection Hn as <-.
      apply js_get_None, renamed_lookups. }
  by rewrite Hgone in Ht.
Qed.

(** X6. Running the interceptor behind a closure of the global patch gives
    what the interceptor alone gives, and a closure behind the interceptor
    changes nothing: the layers of the patch compose to the interceptor. *)
Theorem interceptor_absorbs_closure (p : bool) (d : descriptor) :
  normalize <$> result (PatchAxios.rewrite p (Some d)) = Some (normalize d)
  ∧ result (PatchAxios.rewrite p (Some (normalize d))) = Some (normalize d).
Proof.
  split.
  - destruct (rewrite_result_cases p d) as [E | (h & Hh & Ht & E)].
    + by rewrite E.
    + rewrite (rewrite_truthy_normalize p d h Hh Ht). simpl.
      by rewrite normalize_twice.
  - destruct (headers (normalize d)) as [h|] eqn:Hn.
    + by rewrite (rewrite_falsy p _ h Hn (normalize_no_truthy_underscore d h Hn)).
    + by rewrite (rewrite_no_headers p _ Hn).
Qed.

Lemma calls_fresh n ax :
  PatchAxios.calls (S n) (PatchAxios.mkState false (PatchAxios.Loaded ax)) =
    PatchAxios.mkState true
      (PatchAxios.Loaded
         (PatchAxios.mkAxios
            (PatchAxios.Rewriting false (PatchAxios.request ax))
            (PatchAxios.Rewriting true <$> PatchAxios.Axios_prototype_request ax))).
Proof.
  change (PatchAxios.calls (S n) (PatchAxios.mkState false (PatchAxios.Loaded ax)))
    with (PatchAxios.calls n
            (result (PatchAxios.patchAxiosGlobally
                       (PatchAxios.mkState false (PatchAxios.Loaded ax))))).
  rewrite patchAxiosGlobally_fresh. by apply calls_patched.
Qed.

(** X7. After [patchAxiosGlobally] has run on a loadable axios, once or
    any number of times more, a call of [axios.request] with a truthy
    value [v] under [api_access_token] reaches the library's own [request]
    with that key gone, [api-access-token] bound to [v], and URL, method
    and body as given; a call without a config reaches it without one. *)
Theorem patched_axios_request_renames
    (ax : PatchAxios.axiosModule) (n : nat) (d : descriptor) (v : jsval) :
  header d api_access_token = Some v ->
  truthy v = true ->
  ∃ ax',
    PatchAxios.axios
      (PatchAxios.calls (S n) (PatchAxios.mkState false (PatchAxios.Loaded ax)))
    = PatchAxios.Loaded ax'
    ∧ (∃ d',
         result (PatchAxios.call (PatchAxios.request ax') (Some d)) = Some d'
         ∧ header d' api_access_token = None
         ∧ header d' api_access_token_hyphen = Some v
         ∧ url d' = url d ∧ method d' = method d ∧ data d' = data d)
    ∧ result (PatchAxios.call (PatchAxios.request ax') None) = None.
Proof.
  intros Hu Ht.
  destruct (header_Some _ _ _ Hu) as (h & Hh & Hk).
  pose proof (js_get_Some _ _ _ Hk) as Hg.
  rewrite calls_fresh. eexists. split; [reflexivity|].
  simpl PatchAxios.request. rewrite !call_result. simpl. split; [|done].
  eexists. split.
  - apply (rewrite_truthy false d h Hh). by rewrite Hg.
  - rewrite !header_with_headers, Hg.
    destruct (renamed_lookups h v) as [Hgone Hset]. done.
Qed.

Lemma patched_axios_request_renames_witness :
  let ax := PatchAxios.mkAxios PatchAxios.LibraryRequest
                               (Some PatchAxios.LibraryRequest) in
  let d := mkDescriptor (Some {[ api_access_token := JStr "tok-123" ]})
                        (Some "/api/v1/accounts/1/contacts") None None in
  ∃ ax',
    PatchAxios.axios
      (PatchAxios.calls 3 (PatchAxios.mkState false (PatchAxios.Loaded ax)))
    = PatchAxios.Loaded ax'
    ∧ ∃ d',
        result (PatchAxios.call (PatchAxios.request ax') (Some d)) = Some d'
        ∧ header d' api_access_token_hyphen = Some (JStr "tok-123").
Proof.
  intros ax d.
  destruct (patched_axios_request_renames ax 2 d (JStr "tok-123"))
    as (ax' & E & (d' & Hd & _ & Hy & _) & _); [reflexivity | reflexivity |].
  exists ax'. split; [exact E|]. exists d'. split; [exact Hd | exact Hy].
Defined.

(** * The other copies of the rewrite *)

Section MoreVariants.

Import PatchAxios Variants.

Variable JSON_stringify : option nat -> gmap string jsval -> string.

(** Storing the hyphen key first and deleting the underscore key after,
    as the older closure does, gives the same map. *)
Lemma store_then_delete (h : gmap string jsval) t :
  delete api_access_token (<[api_access_token_hyphen := t]> h)
  = <[api_access_token_hyphen := t]> (delete api_access_token h).
Proof. apply delete_insert_ne, names_distinct. Qed.

Lemma sdkRewrite_result p d :
  result (sdkRewrite JSON_stringify (Some d))
  = Returned (result (rewrite p (Some d))).
Proof.
  unfold sdkRewrite. rewrite result_bind.
  destruct (headers d) as [h|] eqn:Hh.
  - destruct (truthy (js_get h api_access_token)) eqn:Ht.
    + rewrite (rewrite_truthy p d h Hh Ht), <- store_then_delete. reflexivity.
    + by rewrite (rewrite_falsy p d h Hh Ht).
  - by rewrite (rewrite_no_headers p d Hh).
Qed.

Lemma sdkCall_result f config :
  result (sdkCall JSON_stringify f config) =
    match sdkLayers f, config with
    | O, _ => Returned config
    | S _, Some d => Returned (result (rewrite false (Some d)))
    | S _, None => Threw TypeError
    end.
Proof.
  revert config. induction f as [|f IH]; intros config; [done|].
  cbn [sdkCall sdkLayers]. rewrite result_bind.
  destruct config as [d|]; [|done].
  rewrite (sdkRewrite_result false d), IH.
  destruct (sdkLayers f); [done|].
  pose proof (rewrite_result_idem false false (Some d)) as Hidem.
  destruct (rewrite_result_cases false d) as [E | (h & _ & _ & E)];
    rewrite E in Hidem |- *; cbv beta iota; by rewrite Hidem.
Qed.

End MoreVariants.

(** X8. The interceptor [createPatchedChatwootClient] puts on the client's
    own axios instance, and the logging version of the interceptor of
    [createPatchedAxiosInstance], hand on the same descriptor as the
    plain interceptor, whatever they log. *)
Theorem interceptor_variants_agree
    (JSON_stringify : option nat -> gmap string jsval -> string)
    (toUpperCase : string -> string) (d : descriptor) :
  result (Variants.onClientRequest d) = normalize d
  ∧ result (Variants.onRequestDebug JSON_stringify toUpperCase d) = normalize d.
Proof.
  unfold Variants.onClientRequest, Variants.onRequestDebug, normalize, onRequest.
  destruct (headers d) as [h|]; [|done].
  by destruct (truthy (js_or (js_get h api_access_token)
                             (js_get h api_access_token_hyphen))).
Qed.

(** X9. On a config object, the closure the older
    [createPatchedChatwootClient] stores in [axios.request] hands on the
    descriptor the closures of [patchAxiosGlobally] hand on, although it
    sets the hyphen key before it deletes the underscore key. On a call
    without a config it throws a [TypeError], where those pass the call
    through. *)
Theorem sdk_closure_agrees_or_throws
    (JSON_stringify : option nat -> gmap string jsval -> string) (p : bool) :
  (∀ d, result (Variants.sdkRewrite JSON_stringify (Some d))
        = Returned (result (PatchAxios.rewrite p (Some d))))
  ∧ result (Variants.sdkRewrite JSON_stringify None) = Threw TypeError
  ∧ PatchAxios.rewrite p None = (None, []).
Proof.
  split; [|done]. intros d. apply sdkRewrite_result.
Qed.

(** X10. Through one or more of the older closures stacked in
    [axios.request], a config object reaches the library as a single
    closure of [patchAxiosGlobally] would hand it on, and a call without a
    config throws a [TypeError] before it reaches the library. *)
Theorem sdk_stack_rewrites_once_or_throws
    (JSON_stringify : option nat -> gmap string jsval -> string)
    (f : Variants.sdkRequestFn) :
  Variants.sdkLayers f ≠ 0%nat ->
  (∀ d, result (Variants.sdkCall JSON_stringify f (Some d))
        = Returned (result (PatchAxios.rewrite false (Some d))))
  ∧ result (Variants.sdkCall JSON_stringify f None) = Threw TypeError.
Proof.
  intros Hf. split; [intros d|]; rewrite sdkCall_result;
    by destruct (Variants.sdkLayers f).
Qed.

Lemma sdk_stack_rewrites_once_or_throws_witness :
  let J : option nat -> gmap string jsval -> string := fun _ _ => "{}" in
  let f := Variants.SdkRewriting (Variants.SdkRewriting Variants.Library) in
  let d := mkDescriptor (Some {[ api_access_token := JStr "tok-123" ]})
                        (Some "/api/v1/accounts/1/contacts") None None in
  Variants.sdkLayers f ≠ 0%nat
  ∧ result (Variants.sdkCall J f (Some d))
    = Returned (result (PatchAxios.rewrite false (Some d)))
  ∧ result (Variants.sdkCall J f None) = Threw TypeError.
Proof.
  intros J f d. split; [done|].
  destruct (sdk_stack_rewrites_once_or_throws J f) as [H1 H2]; [done|].
  split; [apply H1 | exact H2].
Defined.

Section ClientCreation.

Import Variants.

Context {ChatwootAPIConfig Client : Type}.

Implicit Types w : world ChatwootAPIConfig Client.

(** One creation with both modules loadable: the closure is stored
    whatever the constructor does, and the constructor's outcome is the
    function's. *)
Lemma create_loaded w ChatwootClient f config :
  sdk w = Returned ChatwootClient -> axios_request w = Returned f ->
  result (createPatchedChatwootClient w config) =
    (mkWorld (sdk w) (Returned (SdkRewriting f)), ChatwootClient config).
Proof.
  unfold createPatchedChatwootClient. intros -> ->.
  by destruct (ChatwootClient config).
Qed.

Lemma createAll_layers w ChatwootClient f configs :
  sdk w = Returned ChatwootClient -> axios_request w = Returned f ->
  worldLayers (createAll w configs) = (length configs + sdkLayers f)%nat.
Proof.
  revert w f. induction configs as [|config rest IH]; intros w f Hs Ha.
  - unfold worldLayers. simpl. by rewrite Ha.
  - cbn [createAll length]. rewrite (create_loaded w ChatwootClient f config Hs Ha).
    cbn [fst]. rewrite (IH _ (SdkRewriting f)); [simpl; lia | exact Hs | done].
Qed.

End ClientCreation.

(** X11. The older [createPatchedChatwootClient] has no flag: with the SDK
    and axios loadable, every call stores one more closure in
    [axios.request], also when the constructor of the client throws, and
    gives back what the constructor gave, its error included; so after
    creating clients for a list of configs there are as many more
    closures as configs. When the SDK does not load, the call stores
    nothing, logs the error once and throws it again. *)
Theorem client_creation_stacks_closures
    {ChatwootAPIConfig Client : Type}
    (w : Variants.world ChatwootAPIConfig Client) :
  (∀ ChatwootClient f,
     Variants.sdk w = Returned ChatwootClient ->
     Variants.axios_request w = Returned f ->
     (∀ config,
        result (Variants.createPatchedChatwootClient w config) =
          (Variants.mkWorld (Variants.sdk w) (Returned (Variants.SdkRewriting f)),
           ChatwootClient config))
     ∧ ∀ configs,
         Variants.worldLayers (Variants.createAll w configs)
         = (length configs + Variants.sdkLayers f)%nat)
  ∧ (∀ error config,
       Variants.sdk w = Threw error ->
       Variants.createPatchedChatwootClient w config =
         ((w, Threw error),
          [Line Error ("Error creating patched Chatwoot client: " +:+ error)])).
Proof.
  split.
  - intros ChatwootClient f Hs Ha. split.
    + intros config. by apply create_loaded.
    + intros configs. by apply (createAll_layers w ChatwootClient).
  - intros error config Hs. unfold Variants.createPatchedChatwootClient.
    by rewrite Hs.
Qed.

Lemma client_creation_stacks_closures_witness :
  let ctor : nat -> outcome string bool :=
    fun token => if Nat.eqb token 0 then Threw "Error: no token" else Returned true in
  let w := Variants.mkWorld (Returned ctor) (Returned Variants.Library) in
  Variants.worldLayers (Variants.createAll w [1; 0; 2]%nat) = 3%nat
  ∧ (result (Variants.createPatchedChatwootClient w 0%nat)).2 = Threw "Error: no token"
  ∧ Variants.worldLayers (result (Variants.createPatchedChatwootClient w 0%nat)).1 = 1%nat.
Proof.
  intros ctor w.
  destruct (proj1 (client_creation_stacks_closures w) ctor Variants.Library)
    as [H1 H2]; [reflexivity | reflexivity |].
  split; [apply (H2 [1; 0; 2]%nat)|].
  rewrite (H1 0%nat). split; reflexivity.
Defined.


(** * The interceptor on header objects that cannot be changed *)

Section LockedHeaders.

Import Strict.

Variable config : request.
Variable o : object.

Hypothesis has_object : header_object config = Some o.
Hypothesis has_token :
  truthy (js_or (get o api_access_token) (get o api_access_token_hyphen)) = true.

Lemma lookup_hyphen_after_delete :
  delete api_access_token (properties o) !! api_access_token_hyphen
  = properties o !! api_access_token_hyphen.
Proof. apply lookup_delete_ne, names_distinct. Qed.

(** The delete is refused. *)
Lemma onRequest_delete_refused :
  from_option configurable true (properties o !! api_access_token) = false ->
  onRequest config = ((config, Some TypeError), []).
Proof.
  unfold onRequest, delete_property. rewrite has_object, has_token.
  destruct (properties o !! api_access_token) as [p|]; cbn [from_option]; [|done].
  by intros ->.
Qed.

(** What the delete leaves when it goes through. *)
Lemma delete_goes_through :
  from_option configurable true (properties o !! api_access_token) = true ->
  ∃ o1, delete_property o api_access_token = Returned o1
        ∧ properties o1 = delete api_access_token (properties o)
        ∧ extensible o1 = extensible o.
Proof.
  unfold delete_property.
  destruct (properties o !! api_access_token) as [p|] eqn:Hu; cbn [from_option].
  - intros ->. by eexists.
  - intros _. exists o. split; [done|]. split; [|done].
    symmetry. by apply delete_id.
Qed.

(** The delete goes through, the assignment is refused. *)
Lemma onRequest_set_refused :
  from_option configurable true (properties o !! api_access_token) = true ->
  from_option writable (extensible o)
    (properties o !! api_access_token_hyphen) = false ->
  onRequest config =
    ((with_object config
        {| properties := delete api_access_token (properties o);
           extensible := extensible o |},
      Some TypeError), []).
Proof.
  intros Hd Hs. destruct (delete_goes_through Hd) as (o1 & E & Hp & He).
  unfold onRequest. rewrite has_object, has_token, E.
  unfold set_property. rewrite Hp, lookup_hyphen_after_delete, He.
  assert (Eo : o1 = {| properties := delete api_access_token (properties o);
                       extensible := extensible o |}).
  { destruct o1 as [props ext]. cbn in Hp, He. by rewrite Hp, He. }
  rewrite Eo.
  destruct (properties o !! api_access_token_hyphen) as [q|];
    cbn [from_option] in Hs; rewrite Hs; reflexivity.
Qed.

(** Both go through. *)
Lemma onRequest_renamable :
  renamable o = true ->
  ∃ o2,
    onRequest config =
      ((with_object config o2, None),
       [Line Verbose "Patched axios headers: api_access_token → api-access-token"]).
Proof.
  unfold renamable. intros [Hd Hs]%andb_true_iff.
  destruct (delete_goes_through Hd) as (o1 & E & Hp & He).
  unfold onRequest. rewrite has_object, has_token, E.
  unfold set_property. rewrite Hp, lookup_hyphen_after_delete, He.
  destruct (properties o !! api_access_token_hyphen) as [q|];
    cbn [from_option] in Hs; rewrite Hs; by eexists.
Qed.

End LockedHeaders.

(** X12. With a truthy token in the header object, the interceptor
    returns exactly when the object lets it delete [api_access_token]
    (the key is missing or configurable) and assign [api-access-token]
    (the key is writable, or missing from an extensible object);
    otherwise it throws a [TypeError] and logs nothing. When the delete
    is refused the config is left as it was; when the delete goes through
    and the assignment is refused, the handler throws with the underscore
    key already deleted and nothing else changed. *)
Theorem locked_headers_throw (config : Strict.request) (o : Strict.object) :
  Strict.header_object config = Some o ->
  truthy (js_or (Strict.get o api_access_token)
                (Strict.get o api_access_token_hyphen)) = true ->
  ((result (Strict.onRequest config)).2 = None ↔ Strict.renamable o = true)
  ∧ (Strict.renamable o = false ->
     (result (Strict.onRequest config)).2 = Some TypeError
     ∧ trace (Strict.onRequest config) = [])
  ∧ (from_option Strict.configurable true
       (Strict.properties o !! api_access_token) = false ->
     (result (Strict.onRequest config)).1 = config)
  ∧ (from_option Strict.configurable true
       (Strict.properties o !! api_access_token) = true ->
     from_option Strict.writable (Strict.extensible o)
       (Strict.properties o !! api_access_token_hyphen) = false ->
     (result (Strict.onRequest config)).1 =
       Strict.with_object config
         (Strict.mkObject
            (delete api_access_token (Strict.properties o))
            (Strict.extensible o))).
Proof.
  intros Ho Ht.
  destruct (from_option Strict.configurable true
              (Strict.properties o !! api_access_token)) eqn:Hd.
  - destruct (from_option Strict.writable (Strict.extensible o)
                (Strict.properties o !! api_access_token_hyphen)) eqn:Hs.
    + assert (Hr : Strict.renamable o = true)
        by (unfold Strict.renamable; by rewrite Hd, Hs).
      destruct (onRequest_renamable config o Ho Ht Hr) as (o2 & ->).
      rewrite Hr. repeat split; try done.
    + assert (Hr : Strict.renamable o = false)
        by (unfold Strict.renamable; by rewrite Hd, Hs).
      rewrite (onRequest_set_refused config o Ho Ht Hd Hs), Hr.
      repeat split; try done.
  - assert (Hr : Strict.renamable o = false)
      by (unfold Strict.renamable; by rewrite Hd).
    rewrite (onRequest_delete_refused config o Ho Ht Hd), Hr.
    repeat split; try done.
Qed.

Lemma locked_headers_throw_witness :
  let frozen := Strict.mkObject
                  {[ api_access_token := Strict.mkProperty (JStr "tok-123") false false ]}
                  false in
  let closed := Strict.mkObject
                  {[ api_access_token := Strict.mkProperty (JStr "tok-123") true true ]}
                  false in
  let config := Strict.mkRequest (Some frozen) None None None in
  let config' := Strict.mkRequest (Some closed) None None None in
  Strict.renamable frozen = false
  ∧ Strict.onRequest config = ((config, Some TypeError), [])
  ∧ (result (Strict.onRequest config')).2 = Some TypeError
  ∧ (result (Strict.onRequest config')).1
    = Strict.with_object config' (Strict.mkObject ∅ false).
Proof.
  intros frozen closed config config'.
  assert (Hf : Strict.renamable frozen = false) by (vm_compute; reflexivity).
  assert (Hc : Strict.renamable closed = false) by (vm_compute; reflexivity).
  split; [exact Hf|]. split; [|split].
  - vm_compute. reflexivity.
  - apply (proj1 (proj2 (locked_headers_throw config' closed eq_refl eq_refl)) Hc).
  - rewrite (proj2 (proj2 (proj2 (locked_headers_throw config' closed eq_refl eq_refl))));
      [|vm_compute; reflexivity|vm_compute; reflexivity].
    vm_compute. reflexivity.
Defined.
